(** * render-tmpl: a shallow embedding of [renderTmpl] and [replaceStateDirectives]

    The development models the two functions of [render-tmpl.js] over an
    explicit DOM store: nodes live in a finite map from node identifiers to
    node records, the functions are written in a state-and-exception monad
    over that store, and the properties of the templating engine are proved
    about these definitions. *)

From Stdlib Require Import Ascii String.
From stdpp Require Import base option list gmap strings.

Local Open Scope string_scope.

(** ** JavaScript strings

    Strings are sequences of code units; every marker character the code
    inspects (['!'], [','], ['='], ['$']) is a single unit. *)

Module JsString.

(** [s.slice(n)] for [0 <= n]: drops the first [n] units. *)
Fixpoint slice (n : nat) (s : string) : string :=
  match n, s with
  | 0, _ => s
  | S _, EmptyString => EmptyString
  | S n', String _ s' => slice n' s'
  end.

(** [s.startsWith(p)]. *)
Fixpoint startsWith (p s : string) : bool :=
  match p, s with
  | EmptyString, _ => true
  | String _ _, EmptyString => false
  | String a p', String b s' => if Ascii.eqb a b then startsWith p' s' else false
  end.


(** [s.replace(p, "")] with a string pattern: only the first occurrence of
    [p] is removed. *)
Fixpoint removeFirst (p s : string) : string :=
  if startsWith p s then slice (String.length p) s
  else match s with
       | EmptyString => EmptyString
       | String c s' => String c (removeFirst p s')
       end.

(** [s.split(sep)] for a one-unit separator: never the empty array. *)
Fixpoint split (sep : ascii) (s : string) : list string :=
  match s with
  | EmptyString => [EmptyString]
  | String c s' =>
      if Ascii.eqb c sep then EmptyString :: split sep s'
      else match split sep s' with
           | [] => [String c EmptyString]
           | piece :: pieces => String c piece :: pieces
           end
  end.

(** [c.repeat(n)]. *)
Fixpoint repeat (c : ascii) (n : nat) : string :=
  match n with
  | 0 => EmptyString
  | S n' => String c (repeat c n')
  end.

(** Whether the unit [c] occurs in [s]. *)
Fixpoint occurs (c : ascii) (s : string) : bool :=
  match s with
  | EmptyString => false
  | String b s' => if Ascii.eqb b c then true else occurs c s'
  end.

End JsString.

(** ** JavaScript values read from the state object *)

(** The result of a property read [state[key]] or [el.dataset.x] on the flat,
    string-valued records the engine works with: a string, or [undefined]. *)
Inductive jsval : Type :=
| Undefined
| Str (s : string).

(** [Boolean(v)]. *)
Definition toBoolean (v : jsval) : bool :=
  match v with
  | Undefined => false
  | Str EmptyString => false
  | Str (String _ _) => true
  end.

(** [String(v)], the conversion WebIDL applies to a [DOMString] argument. *)
Definition toString (v : jsval) : string :=
  match v with
  | Undefined => "undefined"
  | Str s => s
  end.

(** [a || b]. *)
Definition jsOr (a b : jsval) : jsval := if toBoolean a then a else b.

(** The state: [Record<string, string>]. *)
Abbreviation state := (gmap string string).

(** [state[key]]. *)
Definition stateGet (st : state) (key : string) : jsval :=
  match st !! key with
  | Some v => Str v
  | None => Undefined
  end.

(** ** Expression helpers of [replaceStateDirectives] *)

(** [const clearMagic = (str) => str.replace("$ctx.", "")]. *)
Definition clearMagic (str : string) : string := JsString.removeFirst "$ctx." str.

(** The [for (const char of valueExpr)] loop: counts the leading ['!']. *)
Fixpoint negationsCount (valueExpr : string) : nat :=
  match valueExpr with
  | String "!"%char rest => S (negationsCount rest)
  | _ => 0
  end.

(** The display value the [data-s-show] callback assigns, from the marker. *)
Definition showDisplay (st : state) (sShow : string) : string :=
  let valueExpr := clearMagic sShow in
  let n := negationsCount valueExpr in
  let valueExpr := JsString.slice n valueExpr in
  let evalValue := toBoolean (stateGet st valueExpr) in
  if (if Nat.even n then negb evalValue else evalValue) then "none" else "".

(** ** The DOM store

    The host document is a store of node records addressed by identifier.
    A record keeps what the engine reads or writes: the attributes (a map
    from names to values; their order is never observed), the
    [style.display] property kept as a field of its own, the child list, the
    parent link, and for a [<template>] element the fragment holding its
    [content]. *)

Inductive nodeKind : Type :=
| ElementNode
| TextNode
| DocumentFragmentNode.

#[global] Instance nodeKind_eq_dec : EqDecision nodeKind.
Proof. solve_decision. Defined.

Record node : Type := mkNode {
  nodeType : nodeKind;
  nodeName : string;
  nodeValue : string;
  attributes : gmap string string;
  styleDisplay : string;
  childNodes : list nat;
  parentNode : option nat;
  content : option nat;
}.

#[global] Instance node_eq_dec : EqDecision node.
Proof. solve_decision. Defined.

Definition withAttributes (a : gmap string string) (n : node) : node :=
  mkNode (nodeType n) (nodeName n) (nodeValue n) a (styleDisplay n)
         (childNodes n) (parentNode n) (content n).

Definition withDisplay (v : string) (n : node) : node :=
  mkNode (nodeType n) (nodeName n) (nodeValue n) (attributes n) v
         (childNodes n) (parentNode n) (content n).

Definition withChildNodes (c : list nat) (n : node) : node :=
  mkNode (nodeType n) (nodeName n) (nodeValue n) (attributes n) (styleDisplay n)
         c (parentNode n) (content n).

Definition withParentNode (p : option nat) (n : node) : node :=
  mkNode (nodeType n) (nodeName n) (nodeValue n) (attributes n) (styleDisplay n)
         (childNodes n) p (content n).

Definition withContent (c : option nat) (n : node) : node :=
  mkNode (nodeType n) (nodeName n) (nodeValue n) (attributes n) (styleDisplay n)
         (childNodes n) (parentNode n) c.

(** [el.dataset.x] for the attribute [data-x]. *)
Definition dataset (name : string) (n : node) : jsval :=
  match attributes n !! name with
  | Some v => Str v
  | None => Undefined
  end.

(** The store, the allocation counter and the [console.warn] log. *)
Record dom : Type := mkDom {
  nodes : gmap nat node;
  nextId : nat;
  warnings : list string;
}.

(** What a call can throw. [Stuck] is not a JavaScript exception: it marks a
    run of the model that exhausted its traversal fuel or followed an
    identifier with no record. *)
Inductive exn : Type :=
| TypeError
| InvalidCharacterError
| HierarchyRequestError
| UserError (msg : string)
| Stuck.

Inductive result (A : Type) : Type :=
| Ok (a : A)
| Throw (e : exn).
Arguments Ok {A} a.
Arguments Throw {A} e.

(** Computations over the store; a throw keeps the store reached so far. *)
Definition M (A : Type) : Type := dom -> dom * result A.

Definition ret {A} (a : A) : M A := fun d => (d, Ok a).

Definition throw {A} (e : exn) : M A := fun d => (d, Throw e).

Definition bind {A B} (c : M A) (k : A -> M B) : M B :=
  fun d => match c d with
           | (d', Ok a) => k a d'
           | (d', Throw e) => (d', Throw e)
           end.

Notation "'let*' x ':=' c 'in' k" := (bind c (fun x => k))
  (at level 10, x name, c at level 100, k at level 200).
Notation "c ';;' k" := (bind c (fun _ => k))
  (at level 100, k at level 200, right associativity).

Fixpoint forEach {A} (callback : A -> M unit) (l : list A) : M unit :=
  match l with
  | [] => ret tt
  | x :: rest => callback x;; forEach callback rest
  end.

Fixpoint mapEach {A B} (f : A -> M B) (l : list A) : M (list B) :=
  match l with
  | [] => ret []
  | x :: rest => let* y := f x in let* ys := mapEach f rest in ret (y :: ys)
  end.

Definition getNode (id : nat) : M node :=
  fun d => match nodes d !! id with
           | Some n => (d, Ok n)
           | None => (d, Throw Stuck)
           end.

Definition modifyNode (id : nat) (f : node -> node) : M unit :=
  fun d => (mkDom (alter f id (nodes d)) (nextId d) (warnings d), Ok tt).

Definition allocNode (n : node) : M nat :=
  fun d => (mkDom (<[nextId d := n]> (nodes d)) (S (nextId d)) (warnings d),
            Ok (nextId d)).

(** [console.warn(msg)]. *)
Definition consoleWarn (msg : string) : M unit :=
  fun d => (mkDom (nodes d) (nextId d) (warnings d ++ [msg]), Ok tt).

(** ** Tree traversals

    A traversal follows child (or parent) links for at most [fuel] levels. *)

(** The descendants of [id] in document order (preorder), [id] excluded.
    The [content] of a nested [<template>] is not part of its children. *)
Fixpoint descendants (fuel : nat) (s : gmap nat node) (id : nat) : option (list nat) :=
  match fuel with
  | 0 => None
  | S fuel' =>
      n ← s !! id;
      @concat nat <$> mapM (fun c => cons c <$> descendants fuel' s c) (childNodes n)
  end.

(** The proper ancestors of [id], nearest first. *)
Fixpoint ancestors (fuel : nat) (s : gmap nat node) (id : nat) : option (list nat) :=
  match fuel with
  | 0 => None
  | S fuel' =>
      n ← s !! id;
      match parentNode n with
      | None => Some []
      | Some p => cons p <$> ancestors fuel' s p
      end
  end.

Definition liftOption {A} (f : gmap nat node -> option A) : M A :=
  fun d => match f (nodes d) with
           | Some a => (d, Ok a)
           | None => (d, Throw Stuck)
           end.

(** Whether the record is an element carrying one of the attributes [names]:
    the selector ["[a],[b]"]. *)
Definition matchesSelector (names : list string) (n : node) : bool :=
  match nodeType n with
  | ElementNode => existsb (fun a => bool_decide (is_Some (attributes n !! a))) names
  | _ => false
  end.

Definition selectAll (names : list string) (s : gmap nat node) (ids : list nat) : list nat :=
  List.filter (fun id => match s !! id with
                         | Some n => matchesSelector names n
                         | None => false
                         end) ids.

(** [root.querySelectorAll(selector)]: a static list, in document order. *)
Definition querySelectorAll (fuel : nat) (root : nat) (names : list string) : M (list nat) :=
  liftOption (fun s => selectAll names s <$> descendants fuel s root).

(** [root.querySelector(selector)]: the first match, or [null]. *)
Definition querySelector (fuel : nat) (root : nat) (names : list string) : M (option nat) :=
  let* all := querySelectorAll fuel root names in ret (head all).

(** ** Values a child provider returns *)

#[warnings="-register-all"]
Inductive value : Type :=
| VUndefined
| VNull
| VNode (id : nat)
| VArray (items : list value)
| VOther (truthy : bool).

(** [Boolean(v)] for a provider result; arrays and nodes are objects. *)
Definition truthy (v : value) : bool :=
  match v with
  | VUndefined | VNull => false
  | VNode _ | VArray _ => true
  | VOther b => b
  end.

(** The optional third argument of [renderTmpl]. *)
Definition provider : Type := nat -> state -> M value.

Definition slotWarning : string :=
  "[renderTmpl]: subTmpl used without `data-s-slot` attr in parent template".

(** [el.dataset.sAttr || el.dataset.sAttrs]: the pair list the attribute
    pass reads from an element. *)
Definition attrList (n : node) : jsval :=
  jsOr (dataset "data-s-attr" n) (dataset "data-s-attrs" n).


Section Host.

(** The host's treatment of the name given to [setAttribute]: [None] when
    the host rejects it with an [InvalidCharacterError], otherwise the name
    under which the attribute is stored (an HTML document lower-cases it). *)
Variable attributeName : string -> option string.

(** [el.setAttribute(name, value)]; [value] goes through [String(value)]. *)
Definition setAttribute (el : nat) (name : string) (v : jsval) : M unit :=
  let* _ := getNode el in
  match attributeName name with
  | None => throw InvalidCharacterError
  | Some stored =>
      modifyNode el (fun n => withAttributes (<[stored := toString v]> (attributes n)) n)
  end.

(** [el.style.display = v]. *)
Definition setDisplay (el : nat) (v : string) : M unit :=
  let* _ := getNode el in modifyNode el (withDisplay v).

(** [el.textContent = v]. The attribute is a nullable [DOMString], so
    [undefined] converts to [null], which the setter treats as the empty
    string; all children are removed, and a single text node is inserted
    unless the string is empty. *)
Definition setTextContent (el : nat) (v : jsval) : M unit :=
  let* n := getNode el in
  forEach (fun c => modifyNode c (withParentNode None)) (childNodes n);;
  match v with
  | Undefined | Str EmptyString => modifyNode el (withChildNodes [])
  | Str data =>
      let* t := allocNode (mkNode TextNode "#text" data ∅ "" [] (Some el) None) in
      modifyNode el (withChildNodes [t])
  end.

(** [node.cloneNode(true)]; the copy of a [<template>] element gets a copy
    of its content. [parent] is the parent of the copy. *)
Fixpoint cloneNode (fuel : nat) (id : nat) (parent : option nat) : M nat :=
  match fuel with
  | 0 => throw Stuck
  | S fuel' =>
      let* n := getNode id in
      let* copy := allocNode (withContent None (withParentNode parent (withChildNodes [] n))) in
      let* kids := mapEach (fun c => cloneNode fuel' c (Some copy)) (childNodes n) in
      let* inner := match content n with
                    | None => ret None
                    | Some c => let* c' := cloneNode fuel' c None in ret (Some c')
                    end in
      modifyNode copy (fun m => withContent inner (withChildNodes kids m));;
      ret copy
  end.

(** [slot.appendChild(child)], [slot] possibly [null]. A fragment hands
    over its children; any other node leaves its old parent first. A node
    that is the slot or one of its ancestors is refused. *)
Definition appendChild (fuel : nat) (slot : option nat) (child : value) : M unit :=
  match slot with
  | None => throw TypeError
  | Some p =>
      match child with
      | VNode c =>
          let* _ := getNode p in
          let* cn := getNode c in
          let* up := liftOption (fun s => ancestors fuel s p) in
          if bool_decide (c ∈ p :: up) then throw HierarchyRequestError
          else match nodeType cn with
               | DocumentFragmentNode =>
                   forEach (fun k => modifyNode k (withParentNode (Some p))) (childNodes cn);;
                   modifyNode c (withChildNodes []);;
                   modifyNode p (fun n => withChildNodes (childNodes n ++ childNodes cn) n)
               | _ =>
                   match parentNode cn with
                   | Some q =>
                       modifyNode q (fun n =>
                         withChildNodes
                           (List.filter (fun k => negb (Nat.eqb k c)) (childNodes n)) n)
                   | None => ret tt
                   end;;
                   modifyNode c (withParentNode (Some p));;
                   modifyNode p (fun n => withChildNodes (childNodes n ++ [c]) n)
               end
      | _ => throw TypeError
      end
  end.

(** *** [replaceStateDirectives] *)

(** The callback of the [data-s-show] pass. *)
Definition showCallback (st : state) (el : nat) : M unit :=
  let* n := getNode el in
  match dataset "data-s-show" n with
  | Undefined => throw TypeError
  | Str sShow => setDisplay el (showDisplay st sShow)
  end.

(** The callback of the [data-s-text] pass. *)
Definition textCallback (st : state) (el : nat) : M unit :=
  let* n := getNode el in
  match dataset "data-s-text" n with
  | Undefined => throw TypeError
  | Str sText => setTextContent el (stateGet st (clearMagic sText))
  end.

(** The body of the [for (const pair of ...)] loop:
    [let [attrName, attrValueExpr] = pair.split("=")], then the write. *)
Definition pairCallback (st : state) (el : nat) (pair : string) : M unit :=
  match JsString.split "=" pair with
  | attrName :: attrValueExpr :: _ =>
      setAttribute el attrName (stateGet st (clearMagic attrValueExpr))
  | _ => throw TypeError
  end.

(** The callback of the [data-s-attr]/[data-s-attrs] pass. *)
Definition attrCallback (st : state) (el : nat) : M unit :=
  let* n := getNode el in
  match attrList n with
  | Undefined => throw TypeError
  | Str pairs => forEach (pairCallback st el) (JsString.split "," pairs)
  end.

Definition replaceStateDirectives (fuel : nat) (tmpl : nat) (st : state) : M unit :=
  let* shown := querySelectorAll fuel tmpl ["data-s-show"] in
  forEach (showCallback st) shown;;
  let* texts := querySelectorAll fuel tmpl ["data-s-text"] in
  forEach (textCallback st) texts;;
  let* attrs := querySelectorAll fuel tmpl ["data-s-attr"; "data-s-attrs"] in
  forEach (attrCallback st) attrs.

(** *** [renderTmpl] *)

(** [tmplEl.content.cloneNode(true)]. *)
Definition cloneContent (fuel : nat) (tmplEl : nat) : M nat :=
  let* t := getNode tmplEl in
  match content t with
  | None => throw TypeError
  | Some c => cloneNode fuel c None
  end.

(** The tail shared by both versions: attach what the provider returned. *)
Definition attach (fuel : nat) (slot : option nat) (sub : value) : M unit :=
  match sub with
  | VArray items => forEach (appendChild fuel slot) items
  | _ => if truthy sub then appendChild fuel slot sub else ret tt
  end.

Definition warnIfMissing (slot : option nat) : M unit :=
  match slot with
  | None => consoleWarn slotWarning
  | Some _ => ret tt
  end.

(** [renderTmpl] as documented in the source file: the provider runs
    first, then the slot is looked up. *)
Definition renderTmpl (fuel : nat) (tmplEl : nat) (st : state) (subTmpl : option provider)
  : M nat :=
  let* tmpl := cloneContent fuel tmplEl in
  replaceStateDirectives fuel tmpl st;;
  match subTmpl with
  | None => ret tmpl
  | Some f =>
      let* sub := f tmpl st in
      let* slot := querySelector fuel tmpl ["data-s-slot"] in
      warnIfMissing slot;;
      attach fuel slot sub;;
      ret tmpl
  end.

(** The second [renderTmpl] of the source: the slot is looked up and the
    warning issued before the provider runs. Its [replaceStateDirectives]
    is the first one with [clearMagic] renamed to [clearPrefix]. *)
Definition renderTmpl2 (fuel : nat) (tmplEl : nat) (st : state) (subTmpl : option provider)
  : M nat :=
  let* tmpl := cloneContent fuel tmplEl in
  replaceStateDirectives fuel tmpl st;;
  match subTmpl with
  | None => ret tmpl
  | Some f =>
      let* slot := querySelector fuel tmpl ["data-s-slot"] in
      warnIfMissing slot;;
      let* sub := f tmpl st in
      attach fuel slot sub;;
      ret tmpl
  end.

End Host.

(** ** The state argument left out

    A call [renderTmpl(tmplEl)] or [renderTmpl(tmplEl, undefined, subTmpl)]
    hands [undefined] on as the state. The functions are the same; what
    differs is the property read [state[key]], which then throws a
    [TypeError]. The definitions below repeat the callbacks with that read
    made explicit, in the order in which the source evaluates it. *)

(** [state[key]] for a state that may be [undefined]. *)
Definition stateRead (st : option state) (key : string) : M jsval :=
  match st with
  | Some s => ret (stateGet s key)
  | None => throw TypeError
  end.

(** A provider called with the state as given. *)
Definition providerU : Type := nat -> option state -> M value.

Section HostU.

Variable attributeName : string -> option string.

(** The callback of the [data-s-show] pass; the state is read after the
    negation marks have been counted and sliced off. *)
Definition showCallbackU (st : option state) (el : nat) : M unit :=
  let* n := getNode el in
  match dataset "data-s-show" n with
  | Undefined => throw TypeError
  | Str sShow =>
      let valueExpr := clearMagic sShow in
      let count := negationsCount valueExpr in
      let valueExpr := JsString.slice count valueExpr in
      let* v := stateRead st valueExpr in
      let evalValue := toBoolean v in
      setDisplay el
        (if (if Nat.even count then negb evalValue else evalValue) then "none" else "")
  end.

(** The callback of the [data-s-text] pass. *)
Definition textCallbackU (st : option state) (el : nat) : M unit :=
  let* n := getNode el in
  match dataset "data-s-text" n with
  | Undefined => throw TypeError
  | Str sText =>
      let* v := stateRead st (clearMagic sText) in
      setTextContent el v
  end.

(** The body of the pair loop; the state is read as the second argument of
    [setAttribute], before the call. *)
Definition pairCallbackU (st : option state) (el : nat) (pair : string) : M unit :=
  match JsString.split "=" pair with
  | attrName :: attrValueExpr :: _ =>
      let* v := stateRead st (clearMagic attrValueExpr) in
      setAttribute attributeName el attrName v
  | _ => throw TypeError
  end.

(** The callback of the [data-s-attr]/[data-s-attrs] pass. *)
Definition attrCallbackU (st : option state) (el : nat) : M unit :=
  let* n := getNode el in
  match attrList n with
  | Undefined => throw TypeError
  | Str pairs => forEach (pairCallbackU st el) (JsString.split "," pairs)
  end.

(** [replaceStateDirectives(tmpl, state)]. *)
Definition replaceStateDirectivesU (fuel : nat) (tmpl : nat) (st : option state) : M unit :=
  let* shown := querySelectorAll fuel tmpl ["data-s-show"] in
  forEach (showCallbackU st) shown;;
  let* texts := querySelectorAll fuel tmpl ["data-s-text"] in
  forEach (textCallbackU st) texts;;
  let* attrs := querySelectorAll fuel tmpl ["data-s-attr"; "data-s-attrs"] in
  forEach (attrCallbackU st) attrs.

(** [renderTmpl(tmplEl, state, subTmpl)], first version. *)
Definition renderTmplU (fuel : nat) (tmplEl : nat) (st : option state)
  (subTmpl : option providerU) : M nat :=
  let* tmpl := cloneContent fuel tmplEl in
  replaceStateDirectivesU fuel tmpl st;;
  match subTmpl with
  | None => ret tmpl
  | Some f =>
      let* sub := f tmpl st in
      let* slot := querySelector fuel tmpl ["data-s-slot"] in
      warnIfMissing slot;;
      attach fuel slot sub;;
      ret tmpl
  end.

End HostU.

(** * Notions used by the properties

    Predicates on stores and computations, the passes of directive
    resolution read as functions on the observable shape of a fragment, and
    the sample documents on which the properties are instantiated. *)

(** ** Stores and computations *)

(** Identifiers in use lie below the allocation counter. *)
Definition wf (d : dom) : Prop := forall i, is_Some (nodes d !! i) -> i < nextId d.

(** [d'] keeps every node of [d], each related to its old record by [R]. *)
Definition extends (R : relation node) (d d' : dom) : Prop :=
  nextId d <= nextId d' /\
  forall i n, nodes d !! i = Some n -> exists n', nodes d' !! i = Some n' /\ R n n'.

(** A computation that takes well-formed stores to well-formed extensions. *)
Definition respects (R : relation node) {A} (c : M A) : Prop :=
  forall d, wf d -> wf (c d).1 /\ extends R d (c d).1.

(** Records with the same [style.display]. *)
Definition sameDisplay : relation node :=
  fun n n' => styleDisplay n = styleDisplay n'.

(** Records that agree on one field. *)
Definition sameOn {A} (field : node -> A) : relation node :=
  fun n n' => field n = field n'.

(** The relation that allows every change to a record. *)
Definition anyChange : relation node := fun _ _ => True.

(** The store after [f] has been applied at each of [ids] in turn. *)
Definition alterAll (f : node -> node) (s : gmap nat node) (ids : list nat) : gmap nat node :=
  foldl (fun s i => alter f i s) s ids.

(** The node [id] exists and carries the attribute [name]. *)
Definition hasMarker (name : string) (s : gmap nat node) (id : nat) : Prop :=
  exists n, s !! id = Some n /\ is_Some (attributes n !! name).

(** The store with the log [ws]. *)
Definition withWarnings (ws : list string) (d : dom) : dom :=
  mkDom (nodes d) (nextId d) ws.

(** A computation that neither reads nor writes the warning log. *)
Definition logFree {A} (c : M A) : Prop :=
  forall d ws, c (withWarnings ws d) = (withWarnings ws (c d).1, (c d).2).

(** Every node below [n0] is as it was. *)
Definition frame (n0 : nat) (d d' : dom) : Prop :=
  forall i, i < n0 -> nodes d' !! i = nodes d !! i.

(** The nodes from [n0] upwards only have children from [n0] upwards. *)
Definition closedAbove (n0 : nat) (s : gmap nat node) : Prop :=
  forall i n, n0 <= i -> s !! i = Some n -> Forall (fun c => n0 <= c) (childNodes n).

(** The store is well formed and its region from [n0] upwards is closed. *)
Definition confinedInv (n0 : nat) (d : dom) : Prop :=
  wf d /\ n0 <= nextId d /\ closedAbove n0 (nodes d).

(** A computation that writes only nodes from [n0] upwards, keeps that
    region closed, leaves the log alone, and returns values satisfying [Q]. *)
Definition confined (n0 : nat) {A} (c : M A) (Q : A -> Prop) : Prop :=
  forall d, confinedInv n0 d ->
    confinedInv n0 (c d).1 /\ frame n0 d (c d).1 /\
    warnings (c d).1 = warnings d /\
    forall a, (c d).2 = Ok a -> Q a.

(** A record without its links to other nodes. *)
Definition unlinked (n : node) : node := withParentNode None (withChildNodes [] n).

Arguments unlinked : simpl never.

(** Records that differ at most in their parent link. *)
Definition sameButParent : relation node :=
  sameOn (fun n => (unlinked n, childNodes n)).

(** ** Directive passes and the slot *)


(** What the show callback does to the record of its element. *)
Definition showNode (st : state) (n : node) : node :=
  match dataset "data-s-show" n with
  | Undefined => n
  | Str sShow => withDisplay (showDisplay st sShow) n
  end.

Section Passes.
Context (attributeName : string -> option string) (st : state).

(** The three passes of [replaceStateDirectives], one by one. *)
Definition showPass (fuel root : nat) : M unit :=
  let* shown := querySelectorAll fuel root ["data-s-show"] in
  forEach (showCallback st) shown.

Definition textPass (fuel root : nat) : M unit :=
  let* texts := querySelectorAll fuel root ["data-s-text"] in
  forEach (textCallback st) texts.

Definition attrPass (fuel root : nat) : M unit :=
  let* attrs := querySelectorAll fuel root ["data-s-attr"; "data-s-attrs"] in
  forEach (attrCallback attributeName st) attrs.

End Passes.

Section LaterPasses.
Context (attributeName : string -> option string).


End LaterPasses.

(** Steps 1 and 2 of [renderTmpl]: clone the content, resolve directives. *)
Definition resolvedClone (attributeName : string -> option string)
  (fuel tmplEl : nat) (st : state) : M nat :=
  let* tmpl := cloneContent fuel tmplEl in
  replaceStateDirectives attributeName fuel tmpl st;;
  ret tmpl.

(** A provider result that makes the engine attach something. *)
Definition nonEmptyResult (sub : value) : bool :=
  match sub with
  | VArray items => negb (bool_decide (items = []))
  | _ => truthy sub
  end.

(** What the slot lookup adds to the log. *)
Definition slotWarnings (slot : option nat) : list string :=
  match slot with
  | None => [slotWarning]
  | Some _ => []
  end.

(** What [appendChild] inserts for the node [id]: the children of a document
    fragment, the node itself otherwise. *)
Definition inserted (s : gmap nat node) (id : nat) : list nat :=
  match s !! id with
  | Some n => match nodeType n with
              | DocumentFragmentNode => childNodes n
              | _ => [id]
              end
  | None => []
  end.

(** What attaching [ids] one after the other inserts, in order. *)
Definition insertedAll (s : gmap nat node) (ids : list nat) : list nat :=
  concat (map (inserted s) ids).

(** The nodes [ids] can be attached under [p] one after the other: each
    exists and is neither [p] nor an ancestor of [p], and the nodes to insert
    are distinct, not yet children of [p], and not on the path from [p] to
    its root. *)
Definition attachable (fuel : nat) (s : gmap nat node) (p : nat) (ids : list nat) : Prop :=
  exists pn up,
    s !! p = Some pn /\
    ancestors fuel s p = Some up /\
    Forall (fun id => is_Some (s !! id) /\ id ∉ p :: up) ids /\
    NoDup (insertedAll s ids) /\
    Forall (fun x => (x ∉ childNodes pn) /\ (x ∉ p :: up)) (insertedAll s ids).

(** ** Shapes *)







(** The value the text pass assigns to [textContent]. *)
Definition textValue (st : state) (n : node) : jsval :=
  match dataset "data-s-text" n with
  | Str sText => stateGet st (clearMagic sText)
  | Undefined => Undefined
  end.

(** The text node data that value leaves, if any. *)
Definition textData (v : jsval) : option string :=
  match v with
  | Str (String a b) => Some (String a b)
  | _ => None
  end.

(** The record, without links, of a text node holding [data]. *)
Definition textRecord (data : string) : node :=
  mkNode TextNode "#text" data ∅ "" [] None None.

(** The child list [kids] is what the text pass leaves under the record
    [n] in the store [s']: nothing, or one text node with the right data. *)
Definition textChildren (st : state) (n : node) (s' : gmap nat node) (kids : list nat) : Prop :=
  match textData (textValue st n) with
  | None => kids = []
  | Some data =>
      exists t tn, kids = [t] /\ s' !! t = Some tn /\
                   unlinked tn = textRecord data /\ childNodes tn = []
  end.



Section AttributeWrites.
Context (attributeName : string -> option string) (st : state).

(** The write a pair asks for. *)
Definition parsePair (pair : string) : option (string * string) :=
  match JsString.split "=" pair with
  | attrName :: attrValueExpr :: _ =>
      stored ← attributeName attrName;
      Some (stored, toString (stateGet st (clearMagic attrValueExpr)))
  | _ => None
  end.

(** The writes of a pair list, later pairs winning. *)
Fixpoint parsePairs (pairs : list string) : option (gmap string string) :=
  match pairs with
  | [] => Some ∅
  | p :: rest =>
      kv ← parsePair p;
      m ← parsePairs rest;
      Some (m ∪ {[ kv.1 := kv.2 ]})
  end.

(** The attribute pass on one record: [None] when a pair of its list makes
    the callback throw. *)
Definition attrNode (n : node) : option node :=
  match attrList n with
  | Undefined => None
  | Str pairs =>
      (fun m => withAttributes (m ∪ attributes n) n) <$> parsePairs (JsString.split "," pairs)
  end.

(** The attributes the three passes select on and read. *)
Definition markerNames : list string :=
  ["data-s-show"; "data-s-text"; "data-s-attr"; "data-s-attrs"].




End AttributeWrites.

Section ResolvedShapes.
Context (attributeName : string -> option string) (st : state).



(** The attribute pass succeeds on the record. *)
Definition attrOk (n : node) : Prop :=
  matchesSelector ["data-s-attr"; "data-s-attrs"] n = true ->
  is_Some (attrNode attributeName st n).



End ResolvedShapes.

(** ** What each pass may change *)

(** What the show pass may change of a record: its display, and that only
    on a record carrying the show marker. *)
Definition showChange : relation node := fun n n' =>
  withDisplay "" n' = withDisplay "" n /\
  (attributes n !! "data-s-show" = None -> styleDisplay n' = styleDisplay n).

(** What the text pass may change of a record: its links, and the child
    list only on a record carrying the text marker. *)
Definition textChange : relation node := fun n n' =>
  unlinked n' = unlinked n /\
  (attributes n !! "data-s-text" = None -> childNodes n' = childNodes n).

(** What the attribute pass may change of a record: its attributes, of
    which none is removed, and that only on a record carrying one of the two
    attribute markers. *)
Definition attrChange : relation node := fun n n' =>
  withAttributes ∅ n' = withAttributes ∅ n /\
  (forall a, is_Some (attributes n !! a) -> is_Some (attributes n' !! a)) /\
  (attributes n !! "data-s-attr" = None -> attributes n !! "data-s-attrs" = None ->
   attributes n' = attributes n).

(** ** Subtrees and their copies *)

(** A subtree as [cloneNode(true)] copies it: the record without its links
    and content, the subtrees of its children and, for a template element,
    the subtree of its content. *)
#[warnings="-register-all"]
Inductive tree : Type := Tree (n : node) (kids : list tree) (inner : option tree).

(** The subtree at [id], template contents included. *)
Fixpoint treeOf (fuel : nat) (s : gmap nat node) (id : nat) : option tree :=
  match fuel with
  | 0 => None
  | S fuel' =>
      n ← s !! id;
      kids ← mapM (treeOf fuel' s) (childNodes n);
      inner ← match content n with
              | None => Some None
              | Some c => Some <$> treeOf fuel' s c
              end;
      Some (Tree (withContent None (unlinked n)) kids inner)
  end.


(** The call [cloneNode fuel id parent], run in [d], ends in [d'] with a copy
    of the subtree [t]: the copy is the first node allocated, it has the
    parent asked for, its subtree lies in the nodes allocated by the call and
    is [t] again, and the nodes that existed before are as they were. *)
Definition clonesTo (fuel id : nat) (parent : option nat) (t : tree) (d d' : dom) : Prop :=
  cloneNode fuel id parent d = (d', Ok (nextId d)) /\
  wf d' /\ nextId d < nextId d' /\ warnings d' = warnings d /\
  (forall i, i < nextId d -> nodes d' !! i = nodes d !! i) /\
  parentNode <$> nodes d' !! nextId d = Some parent /\
  (forall s', (forall x, nextId d <= x < nextId d' -> s' !! x = nodes d' !! x) ->
              treeOf fuel s' (nextId d) = Some t).

(** ** Sample documents *)

Module Sample.

Definition element (tag : string) (attrs : list (string * string))
  (kids : list nat) (parent : option nat) : node :=
  mkNode ElementNode tag "" (list_to_map attrs) "" kids parent None.

Definition text (data : string) (parent : option nat) : node :=
  mkNode TextNode "#text" data ∅ "" [] parent None.

Definition fragment (kids : list nat) : node :=
  mkNode DocumentFragmentNode "#document-fragment" "" ∅ "" kids None None.

Definition template (name : string) (inner : nat) (parent : option nat) : node :=
  mkNode ElementNode "template" "" {[ "data-s-tmpl" := name ]} "" [] parent (Some inner).

Definition document (l : list (nat * node)) : dom :=
  mkDom (list_to_map l) (S (foldr Nat.max 0 l.*1)) [].

(** A host that stores every attribute name as given. *)
Definition anyName : string -> option string := Some.

(** [<template><div data-s-show="!!truthyVal">x</div>
               <div data-s-show="!falsyVal"></div></template>]. *)
Definition showDoc : dom :=
  document [ (0, template "tmpl" 1 None); (1, fragment [2; 4]);
             (2, element "div" [("data-s-show", "!!truthyVal")] [3] (Some 1));
             (3, text "x" (Some 2));
             (4, element "div" [("data-s-show", "!falsyVal")] [] (Some 1)) ].

Definition showState : state :=
  list_to_map [("truthyVal", "1234"); ("falsyVal", "")].

End Sample.

Module MissingKey.

(** [<div data-s-text="missing" data-s-attr="title=missing">old</div>]
    inside a fragment, rendered against the empty state. *)
Definition doc : dom :=
  Sample.document
    [ (0, Sample.fragment [1]);
      (1, Sample.element "div"
            [("data-s-text", "missing"); ("data-s-attr", "title=missing")] [2] (Some 0));
      (2, Sample.text "old" (Some 1)) ].

Definition resolved : dom * result unit :=
  replaceStateDirectives Sample.anyName 3 0 ∅ doc.

End MissingKey.

Module BothMarkers.

(** [<img data-s-attr="" data-s-attrs="id=k">] against [{k: "v"}]. *)
Definition img : node :=
  Sample.element "img" [("data-s-attr", ""); ("data-s-attrs", "id=k")] [] (Some 0).

Definition doc : dom := Sample.document [ (0, Sample.fragment [1]); (1, img) ].

Definition st : state := {[ "k" := "v" ]}.

End BothMarkers.

Module SecondEquals.

(** [<a data-s-attr="name=a=b">] against [{a: "x", "a=b": "y"}]. *)
Definition doc : dom :=
  Sample.document
    [ (0, Sample.fragment [1]);
      (1, Sample.element "a" [("data-s-attr", "name=a=b")] [] (Some 0)) ].

Definition st : state := list_to_map [("a", "x"); ("a=b", "y")].

End SecondEquals.

Module NestedPrefix.

(** [<p data-s-text="$ctx.$ctx.a">] and [<p data-s-text="$ctx.a">] against
    [{a: "x", "$ctx.a": "y"}]: the first marker is the prefix followed by
    the key ["$ctx.a"], the second is that key used directly. *)
Definition doc : dom :=
  Sample.document
    [ (0, Sample.fragment [1; 2]);
      (1, Sample.element "p" [("data-s-text", "$ctx.$ctx.a")] [] (Some 0));
      (2, Sample.element "p" [("data-s-text", "$ctx.a")] [] (Some 0)) ].

Definition st : state := list_to_map [("a", "x"); ("$ctx.a", "y")].

Definition resolved : dom * result unit :=
  replaceStateDirectives Sample.anyName 3 0 st doc.

End NestedPrefix.

Module NoSlot.

(** The template of the repository's test "no data-s-slot": a template
    whose only child is the nested template [no-results]. *)
Definition doc : dom :=
  Sample.document
    [ (0, Sample.template "tmpl" 1 None); (1, Sample.fragment [2]);
      (2, Sample.template "no-results" 3 (Some 1)); (3, Sample.fragment [4; 5]);
      (4, Sample.text "No Results " (Some 3));
      (5, Sample.element "span" [("data-s-text", "requestId")] [] (Some 3)) ].

Definition st : state := {[ "greeting" := "hello" ]}.

(** [(tmpl) => renderTmpl(tmpl.querySelector("[data-s-tmpl]"), {requestId: "1234"})]. *)
Definition subTmpl : provider := fun tmpl _ =>
  let* nested := querySelector 4 tmpl ["data-s-tmpl"] in
  match nested with
  | None => throw TypeError
  | Some t =>
      let* sub := renderTmpl Sample.anyName 4 t {[ "requestId" := "1234" ]} None in
      ret (VNode sub)
  end.

Definition d1 : dom := (resolvedClone Sample.anyName 4 0 st doc).1.
Definition d2 : dom := (subTmpl 6 st d1).1.

End NoSlot.

Module NoisyProvider.

(** [() => { console.warn("from provider"); }] on the slot-less template. *)
Definition subTmpl : provider := fun _ _ =>
  consoleWarn "from provider";; ret VUndefined.

Definition first : dom * result nat :=
  renderTmpl Sample.anyName 4 0 NoSlot.st (Some subTmpl) NoSlot.doc.

Definition second : dom * result nat :=
  renderTmpl2 Sample.anyName 4 0 NoSlot.st (Some subTmpl) NoSlot.doc.

End NoisyProvider.

Module SlotList.

(** [<template><div data-s-slot></div>
      <template data-s-tmpl="result-item">Result ref:
        <span data-s-text="$ctx.reference"></span></template>
    </template>]. *)
Definition doc : dom :=
  Sample.document
    [ (0, Sample.template "tmpl" 1 None); (1, Sample.fragment [2; 3]);
      (2, Sample.element "div" [("data-s-slot", "")] [] (Some 1));
      (3, Sample.template "result-item" 4 (Some 1)); (4, Sample.fragment [5; 6]);
      (5, Sample.text "Result ref: " (Some 4));
      (6, Sample.element "span" [("data-s-text", "$ctx.reference")] [] (Some 4)) ].

Definition st : state := {[ "greeting" := "hello" ]}.

(** [(tmpl) => results.map((result) => renderTmpl(subTmpl, result))] for two
    results. *)
Definition subTmpl : provider := fun tmpl _ =>
  let* nested := querySelector 4 tmpl ["data-s-tmpl"] in
  match nested with
  | None => throw TypeError
  | Some t =>
      let* r1 := renderTmpl Sample.anyName 4 t {[ "reference" := "abc" ]} None in
      let* r2 := renderTmpl Sample.anyName 4 t {[ "reference" := "def" ]} None in
      ret (VArray [VNode r1; VNode r2])
  end.

Definition d1 : dom := (resolvedClone Sample.anyName 4 0 st doc).1.
Definition d2 : dom := (subTmpl 7 st d1).1.

End SlotList.

Module MarkerWriter.

(** [<div data-s-attr="data-s-text=k">hello</div>] against [{k: "k"}]: the
    attribute pass gives the element a text marker. *)
Definition doc : dom :=
  Sample.document
    [ (0, Sample.fragment [1]);
      (1, Sample.element "div" [("data-s-attr", "data-s-text=k")] [2] (Some 0));
      (2, Sample.text "hello" (Some 1)) ].

Definition st : state := {[ "k" := "k" ]}.

Definition once : dom * result unit :=
  replaceStateDirectives Sample.anyName 3 0 st doc.


End MarkerWriter.

Module Quickstart.

(** The template of the README, as a fragment:
    [<div data-s-text="greeting"></div>
     <img data-s-attr="src=url,alt=greeting" data-s-show="!!greeting">]. *)
Definition doc : dom :=
  Sample.document
    [ (0, Sample.fragment [1; 2]);
      (1, Sample.element "div" [("data-s-text", "greeting")] [] (Some 0));
      (2, Sample.element "img"
            [("data-s-attr", "src=url,alt=greeting"); ("data-s-show", "!!greeting")]
            [] (Some 0)) ].

Definition st : state := list_to_map [("greeting", "hello"); ("url", "my-url")].

Definition once : dom := (replaceStateDirectives Sample.anyName 3 0 st doc).1.

End Quickstart.

Module EmptyPairs.
(** [<img data-s-attrs="">] and [<img data-s-attr="">]. *)
Definition doc : dom :=
  Sample.document
    [ (0, Sample.fragment [1; 2]);
      (1, Sample.element "img" [("data-s-attrs", "")] [] (Some 0));
      (2, Sample.element "img" [("data-s-attr", "")] [] (Some 0)) ].
End EmptyPairs.

Module BrokenPair.
(** [<img data-s-attr="title=k,oops,alt=k">] and [<img data-s-attr="title=k,=k,alt=k">]
    against [{k: "v"}]. *)
Definition doc : dom :=
  Sample.document
    [ (0, Sample.fragment [1; 2]);
      (1, Sample.element "img" [("data-s-attr", "title=k,oops,alt=k")] [] (Some 0));
      (2, Sample.element "img" [("data-s-attr", "title=k,=k,alt=k")] [] (Some 0)) ].

Definition st : state := {[ "k" := "v" ]}.

(** A host that rejects the empty attribute name. *)
Definition nonEmptyName (name : string) : option string :=
  match name with
  | EmptyString => None
  | _ => Some name
  end.
End BrokenPair.

Module Providers.
(** [() => { throw new Error("boom"); }]. *)
Definition failing : provider := fun _ _ => throw (UserError "boom").
(** [() => undefined]. *)
Definition nothing : provider := fun _ _ => ret VUndefined.
End Providers.

Module BadItem.
(** [(tmpl) => [renderTmpl(nested, {reference: "abc"}), undefined]]. *)
Definition subTmpl : provider := fun tmpl _ =>
  let* nested := querySelector 4 tmpl ["data-s-tmpl"] in
  match nested with
  | None => throw TypeError
  | Some t =>
      let* r1 := renderTmpl Sample.anyName 4 t {[ "reference" := "abc" ]} None in
      ret (VArray [VNode r1; VUndefined])
  end.

Definition d2 : dom := (subTmpl 7 SlotList.st SlotList.d1).1.
End BadItem.

Module QuickstartTemplate.

(** The template of the README:
    [<template data-s-tmpl="tmpl"><div data-s-text="greeting"></div>
       <img data-s-attr="src=url,alt=greeting" data-s-show="!!greeting"></template>]. *)
Definition doc : dom :=
  Sample.document
    [ (0, Sample.template "tmpl" 1 None); (1, Sample.fragment [2; 3]);
      (2, Sample.element "div" [("data-s-text", "greeting")] [] (Some 1));
      (3, Sample.element "img"
            [("data-s-attr", "src=url,alt=greeting"); ("data-s-show", "!!greeting")]
            [] (Some 1)) ].

Definition st : state := list_to_map [("greeting", "hello"); ("url", "my-url")].

(** The subtree of the template's content. *)
Definition content : tree :=
  Tree (Sample.fragment [])
    [Tree (Sample.element "div" [("data-s-text", "greeting")] [] None) [] None;
     Tree (Sample.element "img"
             [("data-s-attr", "src=url,alt=greeting"); ("data-s-show", "!!greeting")]
             [] None) [] None]
    None.

End QuickstartTemplate.

Module HtmlString.
(** [() => "<b>no results</b>"]: a string, truthy and not a node. *)
Definition subTmpl : provider := fun _ _ => ret (VOther true).
End HtmlString.

Module Loading.

(** [<template data-s-tmpl="loading">Loading...</template>], rendered by
    [renderTmpl(tmpl)]. *)
Definition doc : dom :=
  Sample.document
    [ (0, Sample.template "loading" 1 None); (1, Sample.fragment [2]);
      (2, Sample.text "Loading..." (Some 1)) ].

Definition cloned : dom := (cloneContent 3 0 doc).1.

End Loading.

Module SlotMaker.

(** [<template><div></div></template>] and the provider
    [(tmpl) => { tmpl.firstChild.setAttribute("data-s-slot", "");
                 return document.createTextNode("x"); }]. *)
Definition doc : dom :=
  Sample.document
    [ (0, Sample.template "tmpl" 1 None); (1, Sample.fragment [2]);
      (2, Sample.element "div" [] [] (Some 1)) ].

Definition subTmpl : provider := fun tmpl _ =>
  let* n := getNode tmpl in
  match childNodes n with
  | c :: _ =>
      setAttribute Sample.anyName c "data-s-slot" (Str "");;
      let* t := allocNode (Sample.text "x" None) in
      ret (VNode t)
  | [] => throw TypeError
  end.

Definition d1 : dom := (resolvedClone Sample.anyName 3 0 ∅ doc).1.
Definition d2 : dom := (subTmpl 3 ∅ d1).1.

End SlotMaker.

Module Tests.

(** The template of the test "renderTmpl - data-s-show": five [div]s inside
    a [div], with the markers [truthyVal], [!truthyVal], [!!truthyVal],
    [falsyVal] and [!falsyVal]. *)
Definition showDoc : dom :=
  Sample.document
    [ (0, Sample.template "tmpl" 1 None); (1, Sample.fragment [2]);
      (2, Sample.element "div" [("data-testid", "output")] [3; 4; 5; 6; 7] (Some 1));
      (3, Sample.element "div" [("data-s-show", "truthyVal")] [] (Some 2));
      (4, Sample.element "div" [("data-s-show", "!truthyVal")] [] (Some 2));
      (5, Sample.element "div" [("data-s-show", "!!truthyVal")] [] (Some 2));
      (6, Sample.element "div" [("data-s-show", "falsyVal")] [] (Some 2));
      (7, Sample.element "div" [("data-s-show", "!falsyVal")] [] (Some 2)) ].

(** The template of the test "setting multiple attributes": one [img] with
    the attr marker and one with the attrs marker. *)
Definition attrDoc : dom :=
  Sample.document
    [ (0, Sample.template "tmpl" 1 None); (1, Sample.fragment [2; 3]);
      (2, Sample.element "img" [("data-s-attr", "src=url,alt=greeting")] [] (Some 1));
      (3, Sample.element "img" [("data-s-attrs", "src=url,alt=greeting")] [] (Some 1)) ].

Definition attrState : state := list_to_map [("greeting", "hello"); ("url", "my-url")].

(** [style.display] of the node [id] after the call. *)
Definition displayOf (r : dom * result nat) (id : nat) : option string :=
  styleDisplay <$> nodes r.1 !! id.

(** The attribute [name] of the node [id] after the call. *)
Definition attributeOf (r : dom * result nat) (id : nat) (name : string) : option string :=
  nodes r.1 !! id ≫= fun n => attributes n !! name.

End Tests.

(** * Properties *)

(** ** Strings *)

Module JsStringFacts.
Import JsString.

Lemma startsWith_app (p s : string) : startsWith p (p ++ s) = true.
Proof.
  induction p as [|a p IH]; simpl; [done|].
  by rewrite Ascii.eqb_refl.
Qed.

Lemma slice_app (p s : string) : slice (String.length p) (p ++ s) = s.
Proof. induction p as [|a p IH]; simpl; [by destruct s|done]. Qed.

Lemma removeFirst_unfold (p s : string) :
  removeFirst p s =
    if startsWith p s then slice (String.length p) s
    else match s with
         | EmptyString => EmptyString
         | String c s' => String c (removeFirst p s')
         end.
Proof. by destruct s. Qed.

Lemma removeFirst_app (p s : string) : removeFirst p (p ++ s) = s.
Proof. by rewrite removeFirst_unfold, startsWith_app, slice_app. Qed.



Lemma split_absent (sep : ascii) (s : string) :
  occurs sep s = false -> split sep s = [s].
Proof.
  induction s as [|c s IH]; simpl; [done|].
  destruct (Ascii.eqb c sep); [done|].
  intros H. by rewrite IH.
Qed.

Lemma split_app (sep : ascii) (a b : string) :
  occurs sep a = false ->
  split sep (a ++ String sep b) = a :: split sep b.
Proof.
  induction a as [|c a IH]; simpl.
  - by rewrite Ascii.eqb_refl.
  - destruct (Ascii.eqb c sep); [done|].
    intros H. by rewrite IH.
Qed.

End JsStringFacts.

Lemma clearMagic_prefixed (k : string) : clearMagic ("$ctx." ++ k) = k.
Proof. apply JsStringFacts.removeFirst_app. Qed.





(** ** Reasoning about computations over the store *)

Section Respects.
Context (R : relation node) `{!PreOrder R}.

Lemma extends_refl (d : dom) : extends R d d.
Proof. split; [done|]. intros i n Hi. by exists n. Qed.

Lemma extends_trans (d1 d2 d3 : dom) :
  extends R d1 d2 -> extends R d2 d3 -> extends R d1 d3.
Proof.
  intros [Hn1 H1] [Hn2 H2]. split; [lia|].
  intros i n Hi. destruct (H1 i n Hi) as (n' & Hi' & Hr).
  destruct (H2 i n' Hi') as (n'' & Hi'' & Hr'). exists n''. split; [done|].
  by etrans.
Qed.

Lemma respects_ret {A} (a : A) : respects R (ret a).
Proof. intros d Hd. split; [done|apply extends_refl]. Qed.

Lemma respects_throw {A} (e : exn) : respects R (@throw A e).
Proof. intros d Hd. split; [done|apply extends_refl]. Qed.

Lemma respects_bind {A B} (c : M A) (k : A -> M B) :
  respects R c -> (forall a, respects R (k a)) -> respects R (bind c k).
Proof.
  intros Hc Hk d Hd. unfold bind. destruct (Hc d Hd) as [Hw He].
  destruct (c d) as [d' [a|e]]; simpl in *; [|done].
  destruct (Hk a d' Hw) as [Hw' He']. split; [done|].
  by eapply extends_trans.
Qed.

Lemma respects_forEach {A} (f : A -> M unit) (l : list A) :
  (forall x, respects R (f x)) -> respects R (forEach f l).
Proof.
  intros Hf. induction l as [|x l IH]; simpl.
  - apply respects_ret.
  - apply respects_bind; [apply Hf|done].
Qed.

Lemma respects_mapEach {A B} (f : A -> M B) (l : list A) :
  (forall x, respects R (f x)) -> respects R (mapEach f l).
Proof.
  intros Hf. induction l as [|x l IH]; simpl.
  - apply respects_ret.
  - apply respects_bind; [apply Hf|]. intros y.
    apply respects_bind; [done|]. intros ys. apply respects_ret.
Qed.

Lemma respects_getNode (id : nat) : respects R (getNode id).
Proof.
  intros d Hd. unfold getNode.
  destruct (nodes d !! id); (split; [done|apply extends_refl]).
Qed.


Lemma respects_consoleWarn (msg : string) : respects R (consoleWarn msg).
Proof. intros d Hd. split; [done|]. split; [done|]. intros i n Hi. by exists n. Qed.

Lemma respects_allocNode (n : node) : respects R (allocNode n).
Proof.
  intros d Hd. unfold wf, extends. split; simpl.
  - intros i Hi. destruct (decide (i = nextId d)) as [->|Hne]; [lia|].
    rewrite lookup_insert_ne in Hi by done. apply Hd in Hi. lia.
  - split; [lia|]. intros i m Hi. exists m. split; [|done].
    rewrite lookup_insert_ne; [done|].
    intros <-. assert (nextId d < nextId d) by (apply Hd; by rewrite Hi). lia.
Qed.

Lemma respects_modifyNode (id : nat) (f : node -> node) :
  (forall n, R n (f n)) -> respects R (modifyNode id f).
Proof.
  intros Hf d Hd. unfold wf, extends. split; simpl.
  - intros i Hi. apply Hd. rewrite lookup_alter in Hi.
    case_decide; [|done]. subst. by apply fmap_is_Some in Hi.
  - split; [done|]. intros i n Hi. rewrite lookup_alter.
    case_decide as Heq; [|by exists n]. subst.
    rewrite Hi. simpl. by exists (f n).
Qed.

End Respects.

(** The text and attribute passes write only child lists, parent links and
    attributes: any relation indifferent to those three is respected. *)
Section TextAndAttrPasses.
Context (attributeName : string -> option string).
Context (R : relation node) `{!PreOrder R}.
Hypothesis R_parent : forall p n, R n (withParentNode p n).
Hypothesis R_children : forall c n, R n (withChildNodes c n).
Hypothesis R_attributes : forall a n, R n (withAttributes a n).

Lemma respects_setTextContent (el : nat) (v : jsval) :
  respects R (setTextContent el v).
Proof.
  unfold setTextContent.
  apply respects_bind; [done|apply respects_getNode; done|]. intros n.
  apply respects_bind; [done| |].
  - apply respects_forEach; [done|]. intros c.
    apply respects_modifyNode; [done|]. apply R_parent.
  - intros _. destruct v as [|[|a s]].
    + apply respects_modifyNode; [done|]. apply R_children.
    + apply respects_modifyNode; [done|]. apply R_children.
    + apply respects_bind; [done|apply respects_allocNode; done|]. intros t.
      apply respects_modifyNode; [done|]. apply R_children.
Qed.


Lemma respects_textCallback (st : state) (el : nat) :
  respects R (textCallback st el).
Proof.
  unfold textCallback.
  apply respects_bind; [done|apply respects_getNode; done|]. intros n.
  destruct (dataset _ n); [by apply respects_throw|apply respects_setTextContent].
Qed.




End TextAndAttrPasses.

(** ** The [data-s-show] pass *)

Lemma alter_ext_at (f g : node -> node) (i : nat) (s : gmap nat node) :
  (forall n, s !! i = Some n -> f n = g n) -> alter f i s = alter g i s.
Proof.
  intros H. apply map_eq. intros j. rewrite !lookup_alter.
  case_decide; [|done]. subst. destruct (s !! j) eqn:E; simpl; [|done].
  by rewrite (H _ eq_refl).
Qed.

Lemma showNode_attributes (st : state) (n : node) :
  attributes (showNode st n) = attributes n.
Proof. unfold showNode. by destruct (dataset _ n). Qed.


Lemma hasMarker_alter_showNode (st : state) (name : string) (s : gmap nat node) (i j : nat) :
  hasMarker name s j -> hasMarker name (alter (showNode st) i s) j.
Proof.
  intros (n & Hn & Ha). unfold hasMarker. rewrite lookup_alter.
  case_decide; [|by exists n]. subst. rewrite Hn. simpl.
  exists (showNode st n). by rewrite showNode_attributes.
Qed.

Lemma showCallback_alter (st : state) (el : nat) (d : dom) :
  hasMarker "data-s-show" (nodes d) el ->
  showCallback st el d =
    (mkDom (alter (showNode st) el (nodes d)) (nextId d) (warnings d), Ok tt).
Proof.
  intros (n & Hn & [v Hv]).
  unfold showCallback, setDisplay, bind, getNode, modifyNode, dataset. rewrite Hn, Hv.
  simpl. rewrite Hn. simpl. do 2 f_equal.
  apply alter_ext_at. intros m Hm. assert (m = n) as -> by congruence.
  unfold showNode, dataset. by rewrite Hv.
Qed.

Lemma forEach_showCallback (st : state) (shown : list nat) (d : dom) :
  Forall (hasMarker "data-s-show" (nodes d)) shown ->
  forEach (showCallback st) shown d =
    (mkDom (alterAll (showNode st) (nodes d) shown) (nextId d) (warnings d), Ok tt).
Proof.
  revert d. induction shown as [|el shown IH]; intros d Hall.
  - by destruct d.
  - apply Forall_cons in Hall as [Hel Hall]. simpl. unfold bind.
    rewrite showCallback_alter by done. rewrite IH; [done|]. simpl.
    eapply Forall_impl; [done|]. intros j. apply hasMarker_alter_showNode.
Qed.

Lemma alterAll_lookup (f : node -> node) (s : gmap nat node) (ids : list nat) (i : nat) :
  (forall n, f (f n) = f n) ->
  alterAll f s ids !! i = if bool_decide (i ∈ ids) then f <$> s !! i else s !! i.
Proof.
  intros Hf. revert s. induction ids as [|j ids IH]; intros s; simpl; [done|].
  rewrite IH, lookup_alter.
  destruct (decide (j = i)) as [->|Hne].
  - rewrite (bool_decide_eq_true_2 (i ∈ i :: ids)) by set_solver.
    case_bool_decide as Hin; [|done]. destruct (s !! i); simpl; [|done]. by rewrite Hf.
  - case_bool_decide as Hin.
    + by rewrite bool_decide_eq_true_2 by set_solver.
    + by rewrite bool_decide_eq_false_2 by set_solver.
Qed.

Lemma forEach_modifyNode (f : node -> node) (ids : list nat) (d : dom) :
  forEach (fun c => modifyNode c f) ids d =
    (mkDom (alterAll f (nodes d) ids) (nextId d) (warnings d), Ok tt).
Proof.
  revert d. induction ids as [|c ids IH]; intros d; [by destruct d|].
  simpl. unfold bind. simpl. by rewrite IH.
Qed.

Lemma alterAll_related (R : relation node) `{!PreOrder R}
  (f : node -> node) (s : gmap nat node) (ids : list nat) (i : nat) (n : node) :
  (forall m, R m (f m)) ->
  s !! i = Some n ->
  exists n', alterAll f s ids !! i = Some n' /\ R n n'.
Proof.
  intros Hf. revert s n. induction ids as [|c ids IH]; intros s n Hi; simpl.
  - by exists n.
  - destruct (IH (alter f c s) (if decide (c = i) then f n else n)) as (n' & Hn' & Hr).
    { rewrite lookup_alter. destruct (decide (c = i)) as [->|]; rewrite Hi; simpl; reflexivity. }
    exists n'. split; [done|]. destruct (decide (c = i)); [|exact Hr].
    etrans; [apply Hf|exact Hr].
Qed.

Lemma selectAll_hasMarker (name : string) (s : gmap nat node) (ids : list nat) :
  Forall (hasMarker name s) (selectAll [name] s ids).
Proof.
  apply Forall_forall. intros i Hi. unfold selectAll in Hi.
  apply list_elem_of_In, filter_In in Hi as [_ Hi].
  destruct (s !! i) as [n|] eqn:E; [|done]. exists n. split; [done|].
  unfold matchesSelector in Hi. destruct (nodeType n); try done.
  simpl in Hi. rewrite orb_false_r in Hi. by apply bool_decide_eq_true in Hi.
Qed.

#[local] Instance sameDisplay_preorder : PreOrder sameDisplay.
Proof. split; [done|]. intros x y z. unfold sameDisplay. congruence. Qed.

#[local] Instance sameOn_preorder {A} (field : node -> A) : PreOrder (sameOn field).
Proof. split; [done|]. intros x y z. unfold sameOn. congruence. Qed.

#[local] Instance anyChange_preorder : PreOrder anyChange.
Proof. by split. Qed.

Lemma respects_showCallback (st : state) (el : nat) :
  respects anyChange (showCallback st el).
Proof.
  unfold showCallback.
  apply respects_bind; [apply _|by apply respects_getNode|]. intros n.
  destruct (dataset _ n); [by apply respects_throw|].
  apply respects_bind; [apply _|by apply respects_getNode|]. intros _.
  by apply respects_modifyNode.
Qed.



(** ** Checking a sample store *)

Lemma wf_check (d : dom) :
  bool_decide (map_Forall (fun i _ => i < nextId d) (nodes d)) = true -> wf d.
Proof.
  intros H%bool_decide_eq_true i [n Hi]. by apply (H i n).
Qed.


(** ** Missing state keys *)



Lemma pairCallback_two attributeName (st : state) (el : nat) (name expr : string) :
  JsString.occurs "=" name = false ->
  JsString.occurs "=" expr = false ->
  pairCallback attributeName st el (name ++ String "=" expr) =
    setAttribute attributeName el name (stateGet st (clearMagic expr)).
Proof.
  intros Hn He. unfold pairCallback.
  by rewrite JsStringFacts.split_app, JsStringFacts.split_absent.
Qed.



(** ** Which pair list is read *)

(** C5, as stated, fails when the attr-marker is the empty string: then the
    list of the attrs-marker is the one read and applied. *)
Lemma attr_precedence_counterexample :
  attributes BothMarkers.img !! "data-s-attr" = Some "" /\
  attributes BothMarkers.img !! "data-s-attrs" = Some "id=k" /\
  attrList BothMarkers.img = Str "id=k" /\
  exists d', attrCallback Sample.anyName BothMarkers.st 1 BothMarkers.doc = (d', Ok tt) /\
             (attributes <$> nodes d' !! 1) ≫= (.!! "id") = Some "v".
Proof. repeat split. eexists. split; vm_compute; reflexivity. Qed.

(** C5, amended: on an element with both markers exactly one pair list is
    applied; it is the attr-marker's whenever that marker is not the empty
    string, and the attrs-marker's when it is. *)
Theorem attr_precedence
  (attributeName : string -> option string) (st : state) (d : dom) (el : nat) (n : node)
  (sAttr sAttrs : string) :
  nodes d !! el = Some n ->
  attributes n !! "data-s-attr" = Some sAttr ->
  attributes n !! "data-s-attrs" = Some sAttrs ->
  attrList n = Str (if decide (sAttr = "") then sAttrs else sAttr) /\
  attrCallback attributeName st el d =
    forEach (pairCallback attributeName st el)
      (JsString.split "," (if decide (sAttr = "") then sAttrs else sAttr)) d.
Proof.
  intros Hn Ha Hb.
  assert (Hlist : attrList n = Str (if decide (sAttr = "") then sAttrs else sAttr)).
  { unfold attrList, jsOr, dataset. rewrite Ha, Hb. by destruct sAttr. }
  split; [done|].
  unfold attrCallback, bind, getNode. by rewrite Hn, Hlist.
Qed.

Lemma attr_precedence_witness :
  attrList BothMarkers.img = Str (if decide ("" = "") then "id=k" else "") /\
  attrCallback Sample.anyName BothMarkers.st 1 BothMarkers.doc =
    forEach (pairCallback Sample.anyName BothMarkers.st 1)
      (JsString.split "," (if decide ("" = "") then "id=k" else "")) BothMarkers.doc.
Proof.
  apply (attr_precedence Sample.anyName BothMarkers.st BothMarkers.doc 1 BothMarkers.img
           "" "id=k"); vm_compute; reflexivity.
Defined.

(** ** How a pair is split *)

(** C6, as stated, fails: for the pair ["name=a=b"] the value expression is
    ["a"], not ["a=b"]; the attribute gets [state["a"]]. *)
Lemma pair_split_counterexample :
  stateGet SecondEquals.st "a=b" = Str "y" /\
  exists d', attrCallback Sample.anyName SecondEquals.st 1 SecondEquals.doc = (d', Ok tt) /\
             (attributes <$> nodes d' !! 1) ≫= (.!! "name") = Some "x".
Proof. split; [done|]. eexists. split; vm_compute; reflexivity. Qed.

Lemma pairCallback_three attributeName (st : state) (el : nat) (name expr rest : string) :
  JsString.occurs "=" name = false ->
  JsString.occurs "=" expr = false ->
  pairCallback attributeName st el (name ++ String "=" (expr ++ String "=" rest)) =
    setAttribute attributeName el name (stateGet st (clearMagic expr)).
Proof.
  intros Hn He. unfold pairCallback.
  rewrite !JsStringFacts.split_app by done.
  by destruct (JsString.split "=" rest).
Qed.

(** C6, amended: the marker value is split on every [','] into pairs and
    each pair on every ['=']; the first piece is the attribute name, the
    second piece is the value expression, and further pieces are ignored. So
    ["name=a=b"] writes attribute ["name"] from the expression ["a"]. *)
Theorem pair_split
  (attributeName : string -> option string) (st : state) (d : dom) (el : nat) (n : node)
  (pairs name expr rest : string) :
  nodes d !! el = Some n ->
  attrList n = Str pairs ->
  JsString.occurs "=" name = false ->
  JsString.occurs "=" expr = false ->
  attrCallback attributeName st el d =
    forEach (pairCallback attributeName st el) (JsString.split "," pairs) d /\
  pairCallback attributeName st el (name ++ String "=" expr) =
    setAttribute attributeName el name (stateGet st (clearMagic expr)) /\
  pairCallback attributeName st el (name ++ String "=" (expr ++ String "=" rest)) =
    setAttribute attributeName el name (stateGet st (clearMagic expr)).
Proof.
  intros Hn Hl Hname Hexpr. split; [|split].
  - unfold attrCallback, bind, getNode. by rewrite Hn, Hl.
  - by apply pairCallback_two.
  - by apply pairCallback_three.
Qed.

Lemma pair_split_witness :
  attrCallback Sample.anyName SecondEquals.st 1 SecondEquals.doc =
    forEach (pairCallback Sample.anyName SecondEquals.st 1)
      (JsString.split "," "name=a=b") SecondEquals.doc /\
  pairCallback Sample.anyName SecondEquals.st 1 ("name" ++ String "=" "a") =
    setAttribute Sample.anyName 1 "name" (stateGet SecondEquals.st (clearMagic "a")) /\
  pairCallback Sample.anyName SecondEquals.st 1 ("name" ++ String "=" ("a" ++ String "=" "b")) =
    setAttribute Sample.anyName 1 "name" (stateGet SecondEquals.st (clearMagic "a")).
Proof.
  apply (pair_split Sample.anyName SecondEquals.st SecondEquals.doc 1
           (Sample.element "a" [("data-s-attr", "name=a=b")] [] (Some 0))
           "name=a=b" "name" "a" "b"); vm_compute; reflexivity.
Defined.

(** ** The context prefix *)





(** ** The slot and the child provider *)

Lemma renderTmpl_resolvedClone attributeName (fuel tmplEl : nat) (st : state)
  (subTmpl : option provider) (d : dom) :
  renderTmpl attributeName fuel tmplEl st subTmpl d =
    (let* tmpl := resolvedClone attributeName fuel tmplEl st in
     match subTmpl with
     | None => ret tmpl
     | Some f =>
         let* sub := f tmpl st in
         let* slot := querySelector fuel tmpl ["data-s-slot"] in
         warnIfMissing slot;;
         attach fuel slot sub;;
         ret tmpl
     end) d.
Proof.
  unfold renderTmpl, resolvedClone, bind.
  destruct (cloneContent fuel tmplEl d) as [d0 [tmpl|e]]; [|done].
  by destruct (replaceStateDirectives attributeName fuel tmpl st d0) as [d1 [[]|e]].
Qed.

Lemma renderTmpl2_resolvedClone attributeName (fuel tmplEl : nat) (st : state)
  (subTmpl : option provider) (d : dom) :
  renderTmpl2 attributeName fuel tmplEl st subTmpl d =
    (let* tmpl := resolvedClone attributeName fuel tmplEl st in
     match subTmpl with
     | None => ret tmpl
     | Some f =>
         let* slot := querySelector fuel tmpl ["data-s-slot"] in
         warnIfMissing slot;;
         let* sub := f tmpl st in
         attach fuel slot sub;;
         ret tmpl
     end) d.
Proof.
  unfold renderTmpl2, resolvedClone, bind.
  destruct (cloneContent fuel tmplEl d) as [d0 [tmpl|e]]; [|done].
  by destruct (replaceStateDirectives attributeName fuel tmpl st d0) as [d1 [[]|e]].
Qed.




(** ** The two versions of [renderTmpl] *)

Lemma logFree_ret {A} (a : A) : logFree (ret a).
Proof. done. Qed.

Lemma logFree_throw {A} (e : exn) : logFree (@throw A e).
Proof. done. Qed.

Lemma logFree_bind {A B} (c : M A) (k : A -> M B) :
  logFree c -> (forall a, logFree (k a)) -> logFree (bind c k).
Proof.
  intros Hc Hk d ws. unfold bind. rewrite Hc.
  destruct (c d) as [d' [a|e]]; simpl; [apply Hk|done].
Qed.

Lemma logFree_forEach {A} (f : A -> M unit) (l : list A) :
  (forall x, logFree (f x)) -> logFree (forEach f l).
Proof.
  intros Hf. induction l as [|x l IH]; simpl; [apply logFree_ret|].
  by apply logFree_bind.
Qed.

Lemma logFree_getNode (id : nat) : logFree (getNode id).
Proof. intros d ws. unfold getNode. simpl. by destruct (nodes d !! id). Qed.

Lemma logFree_modifyNode (id : nat) (f : node -> node) : logFree (modifyNode id f).
Proof. done. Qed.

Lemma logFree_liftOption {A} (f : gmap nat node -> option A) : logFree (liftOption f).
Proof. intros d ws. unfold liftOption. simpl. by destruct (f (nodes d)). Qed.

Lemma logFree_querySelector (fuel root : nat) (names : list string) :
  logFree (querySelector fuel root names).
Proof.
  apply logFree_bind; [apply logFree_liftOption|]. intros l. apply logFree_ret.
Qed.

Lemma logFree_appendChild (fuel : nat) (slot : option nat) (child : value) :
  logFree (appendChild fuel slot child).
Proof.
  unfold appendChild. destruct slot as [p|]; [|apply logFree_throw].
  destruct child as [| |c|items|b]; try apply logFree_throw.
  apply logFree_bind; [apply logFree_getNode|]. intros _.
  apply logFree_bind; [apply logFree_getNode|]. intros cn.
  apply logFree_bind; [apply logFree_liftOption|]. intros up.
  destruct (bool_decide _); [apply logFree_throw|].
  destruct (nodeType cn).
  - apply logFree_bind; [|intros _; apply logFree_bind; [|intros _]];
      try apply logFree_modifyNode.
    destruct (parentNode cn); [apply logFree_modifyNode|apply logFree_ret].
  - apply logFree_bind; [|intros _; apply logFree_bind; [|intros _]];
      try apply logFree_modifyNode.
    destruct (parentNode cn); [apply logFree_modifyNode|apply logFree_ret].
  - apply logFree_bind; [|intros _; apply logFree_bind; [|intros _]];
      try apply logFree_modifyNode.
    apply logFree_forEach. intros k. apply logFree_modifyNode.
Qed.

Lemma logFree_attach (fuel : nat) (slot : option nat) (sub : value) :
  logFree (attach fuel slot sub).
Proof.
  unfold attach. destruct sub as [| |c|items|b]; simpl;
    try apply logFree_ret; try apply logFree_appendChild.
  - apply logFree_forEach. intros x. apply logFree_appendChild.
  - destruct b; [apply logFree_appendChild|apply logFree_ret].
Qed.

Lemma withWarnings_self (d : dom) : withWarnings (warnings d) d = d.
Proof. by destruct d. Qed.

Lemma withWarnings_twice (ws ws' : list string) (d : dom) :
  withWarnings ws (withWarnings ws' d) = withWarnings ws d.
Proof. done. Qed.

Lemma warnIfMissing_log (slot : option nat) (ws : list string) (d : dom) :
  warnIfMissing slot (withWarnings ws d) = (withWarnings (ws ++ slotWarnings slot) d, Ok tt).
Proof. destruct slot; simpl; [|done]. unfold ret, withWarnings. by rewrite app_nil_r. Qed.

(** C10, as stated, fails on the warnings: a provider that returns normally,
    touches no slot-marker element and logs a warning of its own leaves the
    two versions with different logs. *)
Lemma versions_counterexample :
  NoisyProvider.first.2 = Ok 6 /\ NoisyProvider.second.2 = Ok 6 /\
  warnings NoisyProvider.first.1 = ["from provider"; slotWarning] /\
  warnings NoisyProvider.second.1 = [slotWarning; "from provider"] /\
  NoisyProvider.first <> NoisyProvider.second.
Proof.
  assert (H1 : warnings NoisyProvider.first.1 = ["from provider"; slotWarning])
    by (vm_compute; reflexivity).
  assert (H2 : warnings NoisyProvider.second.1 = [slotWarning; "from provider"])
    by (vm_compute; reflexivity).
  split; [vm_compute; reflexivity|]. split; [vm_compute; reflexivity|].
  split; [exact H1|]. split; [exact H2|].
  intros Heq. rewrite Heq, H2 in H1. discriminate H1.
Qed.

(** C10, amended: for a provider that returns normally, leaves the result of
    the slot lookup unchanged and only appends to the warning log, the two
    versions return the same result (fragment or failure) in the same store;
    their logs hold the same warnings, the slot warning coming after the
    provider's own in the first version and before them in the second, and
    are equal when the slot exists or the provider logs nothing. *)
Theorem versions_agree
  (attributeName : string -> option string) (fuel tmplEl : nat) (st : state)
  (f : provider) (d d1 d2 : dom) (tmpl : nat) (sub : value) (slot : option nat)
  (emitted : list string) :
  resolvedClone attributeName fuel tmplEl st d = (d1, Ok tmpl) ->
  (forall ws, f tmpl st (withWarnings ws d1) = (withWarnings (ws ++ emitted) d2, Ok sub)) ->
  querySelector fuel tmpl ["data-s-slot"] d1 = (d1, Ok slot) ->
  querySelector fuel tmpl ["data-s-slot"] d2 = (d2, Ok slot) ->
  let a := renderTmpl attributeName fuel tmplEl st (Some f) d in
  let b := renderTmpl2 attributeName fuel tmplEl st (Some f) d in
  a.2 = b.2 /\
  nodes a.1 = nodes b.1 /\
  nextId a.1 = nextId b.1 /\
  warnings a.1 = (warnings d1 ++ emitted ++ slotWarnings slot)%list /\
  warnings b.1 = (warnings d1 ++ slotWarnings slot ++ emitted)%list /\
  (emitted = [] \/ is_Some slot -> a = b).
Proof.
  intros Hclone Hf Hq1 Hq2 a b.
  assert (Ha : a = (withWarnings (warnings d1 ++ emitted ++ slotWarnings slot)%list
                      (attach fuel slot sub d2).1,
                    match (attach fuel slot sub d2).2 with
                    | Ok _ => Ok tmpl
                    | Throw e => Throw e
                    end)).
  { unfold a. rewrite renderTmpl_resolvedClone. unfold bind at 1. rewrite Hclone.
    unfold bind at 1. rewrite <- (withWarnings_self d1) at 1. rewrite Hf.
    unfold bind at 1. rewrite logFree_querySelector, Hq2. simpl.
    unfold bind at 1. rewrite warnIfMissing_log.
    unfold bind. rewrite logFree_attach, <- app_assoc.
    by destruct (attach fuel slot sub d2) as [d3 [[]|e]]. }
  assert (Hb : b = (withWarnings (warnings d1 ++ slotWarnings slot ++ emitted)%list
                      (attach fuel slot sub d2).1,
                    match (attach fuel slot sub d2).2 with
                    | Ok _ => Ok tmpl
                    | Throw e => Throw e
                    end)).
  { unfold b. rewrite renderTmpl2_resolvedClone. unfold bind at 1. rewrite Hclone.
    unfold bind at 1. rewrite Hq1.
    unfold bind at 1. rewrite <- (withWarnings_self d1) at 1. rewrite warnIfMissing_log.
    unfold bind at 1. rewrite Hf.
    unfold bind. rewrite logFree_attach, <- app_assoc.
    by destruct (attach fuel slot sub d2) as [d3 [[]|e]]. }
  rewrite Ha, Hb. simpl. repeat split; try done.
  intros [->|[p ->]]; simpl; by rewrite ?app_nil_r.
Qed.

Lemma versions_agree_witness :
  let a := renderTmpl Sample.anyName 4 0 NoSlot.st (Some NoisyProvider.subTmpl) NoSlot.doc in
  let b := renderTmpl2 Sample.anyName 4 0 NoSlot.st (Some NoisyProvider.subTmpl) NoSlot.doc in
  a.2 = b.2 /\
  nodes a.1 = nodes b.1 /\
  nextId a.1 = nextId b.1 /\
  warnings a.1 = (warnings NoSlot.d1 ++ ["from provider"] ++ slotWarnings None)%list /\
  warnings b.1 = (warnings NoSlot.d1 ++ slotWarnings None ++ ["from provider"])%list /\
  (["from provider"] = [] \/ is_Some (@None nat) -> a = b).
Proof.
  apply (versions_agree Sample.anyName 4 0 NoSlot.st NoisyProvider.subTmpl
           NoSlot.doc NoSlot.d1 NoSlot.d1 6 VUndefined None ["from provider"]).
  - vm_compute. reflexivity.
  - intros ws. reflexivity.
  - vm_compute. reflexivity.
  - vm_compute. reflexivity.
Defined.

(** ** Attaching the provider's nodes *)

Lemma ancestors_agree (fuel : nat) (s s' : gmap nat node) (p : nat) (up : list nat) :
  ancestors fuel s p = Some up ->
  (forall x, x ∈ p :: up -> (parentNode <$> s' !! x) = (parentNode <$> s !! x)) ->
  ancestors fuel s' p = Some up.
Proof.
  revert p up. induction fuel as [|fuel IH]; intros p up Hup Hsame; [done|].
  simpl in *. pose proof (Hsame p ltac:(set_solver)) as Hp.
  destruct (s !! p) as [n|] eqn:En; [|done]. simpl in *.
  destruct (s' !! p) as [n'|] eqn:En'; [|done]. simpl in *.
  injection Hp as Hp. rewrite Hp.
  destruct (parentNode n) as [q|]; [|done].
  destruct (ancestors fuel s q) as [up'|] eqn:Eq; [|done]. simpl in Hup.
  injection Hup as <-. rewrite (IH q up'); [done..|].
  intros x Hx. apply Hsame. set_solver.
Qed.

Lemma filter_absent (c : nat) (l : list nat) :
  c ∉ l -> List.filter (fun k => negb (Nat.eqb k c)) l = l.
Proof.
  induction l as [|x l IH]; intros Hc; [done|]. simpl.
  destruct (Nat.eqb_spec x c) as [->|Hne]; [set_solver|].
  simpl. rewrite IH; [done|set_solver].
Qed.

Lemma inserted_same (s s' : gmap nat node) (id : nat) :
  is_Some (s !! id) ->
  (nodeType <$> s' !! id) = (nodeType <$> s !! id) ->
  (forall n n', s !! id = Some n -> s' !! id = Some n' ->
                nodeType n = DocumentFragmentNode -> childNodes n' = childNodes n) ->
  inserted s' id = inserted s id.
Proof.
  intros [n Hn] Hty Hkids. unfold inserted. rewrite Hn in *.
  destruct (s' !! id) as [n'|] eqn:En'; [|done]. simpl in Hty.
  injection Hty as Hty. rewrite Hty.
  destruct (nodeType n) eqn:E; try done. by apply Hkids.
Qed.

Lemma alterAll_notin (f : node -> node) (s : gmap nat node) (ids : list nat) (i : nat) :
  i ∉ ids -> alterAll f s ids !! i = s !! i.
Proof.
  revert s. induction ids as [|c ids IH]; intros s Hi; [done|]. simpl.
  rewrite IH by set_solver. rewrite lookup_alter_ne; [done|set_solver].
Qed.

Lemma elem_of_insertedAll (s : gmap nat node) (ids : list nat) (id x : nat) :
  id ∈ ids -> x ∈ inserted s id -> x ∈ insertedAll s ids.
Proof.
  intros Hid Hx. induction ids as [|y ids IH]; [by apply elem_of_nil in Hid|].
  unfold insertedAll. simpl. fold (insertedAll s ids).
  apply elem_of_app. apply elem_of_cons in Hid as [<-|Hid]; [by left|right; by apply IH].
Qed.

Lemma alterAll_fmap {A} (g : node -> A) (f : node -> node) (s : gmap nat node)
  (ids : list nat) (x : nat) :
  (forall n, g (f n) = g n) ->
  g <$> alterAll f s ids !! x = g <$> s !! x.
Proof.
  intros Hg. revert s. induction ids as [|c ids IH]; intros s; [done|]. simpl.
  rewrite IH, lookup_alter. case_decide; [|done]. subst.
  destruct (s !! x); simpl; [|done]. by rewrite Hg.
Qed.

Lemma alter_fmap {A} (g : node -> A) (f : node -> node) (k : nat) (s : gmap nat node)
  (x : nat) :
  (forall n, g (f n) = g n) ->
  g <$> alter f k s !! x = g <$> s !! x.
Proof.
  intros Hg. rewrite lookup_alter. case_decide; [|done]. subst.
  destruct (s !! x); simpl; [|done]. by rewrite Hg.
Qed.

Lemma attachable_step (fuel : nat) (s s' : gmap nat node) (p c : nat) (ids : list nat)
  (pn pn' : node) (up : list nat) :
  s !! p = Some pn ->
  ancestors fuel s p = Some up ->
  Forall (fun id => is_Some (s !! id) /\ id ∉ p :: up) ids ->
  (forall x, x ∈ inserted s c -> x ∉ insertedAll s ids) ->
  NoDup (insertedAll s ids) ->
  Forall (fun x => (x ∉ childNodes pn) /\ (x ∉ p :: up)) (insertedAll s ids) ->
  (forall x, (nodeType <$> s' !! x) = (nodeType <$> s !! x)) ->
  (forall x, x ∈ p :: up -> (parentNode <$> s' !! x) = (parentNode <$> s !! x)) ->
  s' !! p = Some pn' ->
  childNodes pn' = (childNodes pn ++ inserted s c)%list ->
  (forall id n n', id ∈ ids -> s !! id = Some n -> s' !! id = Some n' ->
                   nodeType n = DocumentFragmentNode -> childNodes n' = childNodes n) ->
  insertedAll s' ids = insertedAll s ids /\ attachable fuel s' p ids.
Proof.
  intros Hp Hup Hall Hdisj Hnd Hfa P1 P2 Hp' Hkids P4.
  assert (Hins : insertedAll s' ids = insertedAll s ids).
  { unfold insertedAll. f_equal. apply map_ext_in. intros id Hid%list_elem_of_In.
    apply inserted_same; [|done|].
    - rewrite Forall_forall in Hall. by apply Hall.
    - intros n n'. by apply P4. }
  split; [done|]. exists pn', up. rewrite Hins.
  split; [done|]. split; [by eapply ancestors_agree|]. split; [|split; [done|]].
  - eapply Forall_impl; [done|]. intros id [Hsome Hid]. split; [|done].
    apply (fmap_is_Some nodeType). rewrite P1. by apply fmap_is_Some.
  - rewrite Forall_forall in Hfa. apply Forall_forall. intros x Hx.
    destruct (Hfa x Hx) as [Hx1 Hx2]. split; [|done].
    rewrite Hkids. intros [?|?]%elem_of_app; [done|]. by eapply Hdisj.
Qed.

Lemma appendChild_step (fuel : nat) (s : gmap nat node) (nx : nat) (ws : list string)
  (p c : nat) (ids : list nat) :
  attachable fuel s p (c :: ids) ->
  exists s',
    appendChild fuel (Some p) (VNode c) (mkDom s nx ws) = (mkDom s' nx ws, Ok tt) /\
    (exists pn pn', s !! p = Some pn /\ s' !! p = Some pn' /\
                    childNodes pn' = (childNodes pn ++ inserted s c)%list) /\
    insertedAll s' ids = insertedAll s ids /\
    attachable fuel s' p ids.
Proof.
  intros (pn & up & Hp & Hup & Hall & Hnd & Hfa).
  apply Forall_cons in Hall as [[[cn Hc] Hcup] Hall].
  unfold insertedAll in Hnd, Hfa. simpl in Hnd, Hfa. fold (insertedAll s ids) in Hnd, Hfa.
  apply NoDup_app in Hnd as (Hnd1 & Hdisj & Hnd2).
  apply Forall_app in Hfa as [Hfa1 Hfa2].
  unfold appendChild, bind, getNode, liftOption. simpl.
  rewrite Hp. simpl. rewrite Hc. simpl. rewrite Hup. simpl.
  rewrite bool_decide_eq_false_2 by done.
  assert (Hcp : c <> p) by set_solver.
  rewrite Forall_forall in Hfa1.
  assert (Hother : nodeType cn <> DocumentFragmentNode ->
    exists s',
      (let (d', r) :=
         match parentNode cn with
         | Some q =>
             modifyNode q (fun n =>
               withChildNodes (List.filter (fun k => negb (Nat.eqb k c)) (childNodes n)) n)
         | None => ret tt
         end (mkDom s nx ws) in
       match r with
       | Ok _ =>
           modifyNode p (fun n => withChildNodes (childNodes n ++ [c]) n)
             (mkDom (alter (withParentNode (Some p)) c (nodes d')) (nextId d') (warnings d'))
       | Throw e => (d', Throw e)
       end) = (mkDom s' nx ws, Ok tt) /\
      (exists pn0 pn', Some pn = Some pn0 /\ s' !! p = Some pn' /\
                       childNodes pn' = (childNodes pn0 ++ inserted s c)%list) /\
      insertedAll s' ids = insertedAll s ids /\ attachable fuel s' p ids).
  { intros Hty.
    assert (Hins : inserted s c = [c]).
    { unfold inserted. rewrite Hc. by destruct (nodeType cn). }
    rewrite Hins in *.
    destruct (Hfa1 c ltac:(set_solver)) as [Hccs _].
    set (filt := fun n => withChildNodes
                   (List.filter (fun k => negb (Nat.eqb k c)) (childNodes n)) n).
    set (sq := match parentNode cn with Some q => alter filt q s | None => s end).
    set (s' := alter (fun n => withChildNodes (childNodes n ++ [c]) n) p
                 (alter (withParentNode (Some p)) c sq)).
    assert (Hsq : forall x n, s !! x = Some n ->
              exists n', sq !! x = Some n' /\ nodeType n' = nodeType n /\
                         parentNode n' = parentNode n /\
                         (c ∉ childNodes n -> childNodes n' = childNodes n)).
    { intros x n Hx. unfold sq. destruct (parentNode cn) as [q|]; [|by exists n].
      rewrite lookup_alter. case_decide; [|by exists n]. subst. rewrite Hx. simpl.
      eexists. split; [done|]. repeat split; try done.
      intros Hcn. simpl. by apply filter_absent. }
    assert (HsqNone : forall x, s !! x = None -> sq !! x = None).
    { intros x Hx. unfold sq. destruct (parentNode cn) as [q|]; [|done].
      rewrite lookup_alter. case_decide; [|done]. subst. by rewrite Hx. }
    exists s'. split; [|split].
    - unfold s', sq. by destruct (parentNode cn).
    - destruct (Hsq p pn Hp) as (pn1 & Hp1 & _ & _ & Hk1).
      exists pn. eexists. split; [done|]. split.
      + unfold s'. rewrite lookup_alter_eq, lookup_alter_ne, Hp1 by done. done.
      + simpl. by rewrite Hk1.
    - destruct (Hsq p pn Hp) as (pn1 & Hp1 & _ & _ & Hk1).
      eapply (attachable_step fuel s s' p c ids pn); try done.
      + intros x Hx. by rewrite Hins in Hx; apply Hdisj.
      + intros x. unfold s', sq. rewrite !alter_fmap by done.
        destruct (parentNode cn); [by rewrite alter_fmap|done].
      + intros x Hx. unfold s', sq. rewrite alter_fmap by done.
        rewrite lookup_alter_ne by (intros ->; done).
        destruct (parentNode cn); [by rewrite alter_fmap|done].
      + unfold s'. rewrite lookup_alter_eq, lookup_alter_ne, Hp1 by done. done.
      + simpl. by rewrite Hk1, Hins.
      + intros id n n' Hid Hn Hn' Hfrag.
        rewrite Forall_forall in Hall. destruct (Hall id Hid) as [_ Hidp].
        assert (id <> p) by set_solver.
        assert (id <> c) by (intros ->; congruence).
        unfold s' in Hn'. rewrite !lookup_alter_ne in Hn' by done.
        destruct (Hsq id n Hn) as (n1 & Hn1 & _ & _ & Hk).
        assert (n1 = n') as -> by congruence. apply Hk.
        intros Hcin. apply (Hdisj c); [set_solver|].
        apply (elem_of_insertedAll s ids id c Hid).
        unfold inserted. by rewrite Hn, Hfrag. }
  destruct (nodeType cn) eqn:Hty; [by apply Hother|by apply Hother|]. clear Hother.
  assert (Hins : inserted s c = childNodes cn).
  { unfold inserted. by rewrite Hc, Hty. }
  rewrite Hins in *.
  rewrite forEach_modifyNode. simpl.
  set (sk := alterAll (withParentNode (Some p)) s (childNodes cn)).
  set (s' := alter (fun n => withChildNodes (childNodes n ++ childNodes cn) n) p
               (alter (withChildNodes []) c sk)).
  assert (Hpk : p ∉ childNodes cn).
  { intros Hin. destruct (Hfa1 p Hin) as [_ Hbad]. set_solver. }
  assert (Hp' : s' !! p = Some (withChildNodes (childNodes pn ++ childNodes cn) pn)).
  { unfold s', sk. rewrite lookup_alter_eq, lookup_alter_ne by done.
    by rewrite alterAll_notin, Hp. }
  exists s'. split; [done|]. split.
  { exists pn. eexists. split; [done|]. split; [exact Hp'|done]. }
  eapply (attachable_step fuel s s' p c ids pn); try done.
  - intros x Hx. apply Hdisj. by rewrite <- Hins.
  - intros x. unfold s', sk. rewrite !alter_fmap by done. by apply alterAll_fmap.
  - intros x Hx. unfold s', sk. rewrite !alter_fmap by done.
    rewrite alterAll_notin; [done|]. intros Hin. by destruct (Hfa1 x Hin).
  - simpl. by rewrite Hins.
  - intros id n n' Hid Hn Hn' Hfrag.
    rewrite Forall_forall in Hall. destruct (Hall id Hid) as [_ Hidp].
    assert (id <> p) by set_solver.
    unfold s' in Hn'. rewrite lookup_alter_ne in Hn' by done.
    destruct (decide (c = id)) as [->|Hne].
    + assert (n = cn) as -> by congruence.
      rewrite lookup_alter_eq in Hn'.
      destruct (sk !! id); [|done]. injection Hn' as <-. simpl.
      destruct (childNodes cn) as [|k ks] eqn:Ek; [done|]. exfalso.
      apply (Hdisj k); [set_solver|].
      apply (elem_of_insertedAll s ids id k Hid).
      unfold inserted. rewrite Hc, Hty, Ek. set_solver.
    + rewrite lookup_alter_ne in Hn' by done.
      pose proof (alterAll_fmap childNodes (withParentNode (Some p)) s (childNodes cn) id
                    ltac:(done)) as Hk.
      fold sk in Hk. rewrite Hn, Hn' in Hk. by injection Hk.
Qed.

Lemma attach_array (fuel : nat) (p : nat) (ids : list nat) (s : gmap nat node)
  (nx : nat) (ws : list string) :
  attachable fuel s p ids ->
  exists s',
    forEach (appendChild fuel (Some p)) (map VNode ids) (mkDom s nx ws)
      = (mkDom s' nx ws, Ok tt) /\
    exists pn pn', s !! p = Some pn /\ s' !! p = Some pn' /\
                   childNodes pn' = (childNodes pn ++ insertedAll s ids)%list.
Proof.
  revert s. induction ids as [|c ids IH]; intros s Hatt.
  - destruct Hatt as (pn & up & Hp & _). exists s. split; [done|].
    exists pn, pn. unfold insertedAll. simpl. by rewrite app_nil_r.
  - destruct (appendChild_step fuel s nx ws p c ids Hatt)
      as (s1 & Hstep & (pn & pn1 & Hp & Hp1 & Hk1) & Hins & Hatt1).
    destruct (IH s1 Hatt1) as (s' & Hloop & (pn1' & pn' & Hp1' & Hp' & Hk')).
    assert (pn1' = pn1) as -> by congruence.
    exists s'. split.
    + cbn [map forEach]. unfold bind. by rewrite Hstep.
    + exists pn, pn'. split; [done|]. split; [done|].
      rewrite Hk', Hk1, Hins, <- app_assoc. done.
Qed.







Lemma attachable_check (fuel : nat) (s : gmap nat node) (p : nat) (ids : list nat) :
  match s !! p, ancestors fuel s p with
  | Some pn, Some up =>
      bool_decide (Forall (fun id => is_Some (s !! id) /\ id ∉ p :: up) ids /\
                   NoDup (insertedAll s ids) /\
                   Forall (fun x => (x ∉ childNodes pn) /\ (x ∉ p :: up)) (insertedAll s ids))
  | _, _ => false
  end = true ->
  attachable fuel s p ids.
Proof.
  destruct (s !! p) as [pn|] eqn:Hp; [|done].
  destruct (ancestors fuel s p) as [up|] eqn:Hup; [|done].
  intros (H1 & H2 & H3)%bool_decide_eq_true. by exists pn, up.
Qed.


(** ** Detachment from the source template *)

Section Confined.
Context (n0 : nat).




Lemma confined_weaken {A} (c : M A) (Q Q' : A -> Prop) :
  confined n0 c Q -> (forall a, Q a -> Q' a) -> confined n0 c Q'.
Proof.
  intros Hc HQ d Hd. destruct (Hc d Hd) as (Hinv & Hfr & Hw & Hq).
  split; [done|]. split; [done|]. split; [done|].
  intros a Ha. by apply HQ, Hq.
Qed.







End Confined.



Section ConfinedEngine.
Context (attributeName : string -> option string) (n0 : nat).









End ConfinedEngine.







(** On the sample document both calls return a fragment, and the second is
    rendered from the unchanged template. *)
Example detached_rendering_runs :
  let r1 := renderTmpl Sample.anyName 4 0 Sample.showState None Sample.showDoc in
  let r2 := renderTmpl Sample.anyName 4 0 ∅ None r1.1 in
  r1.2 = Ok 5 /\ r2.2 = Ok 9 /\
  styleDisplay <$> nodes r2.1 !! 6 = Some "" /\
  styleDisplay <$> nodes r2.1 !! 10 = Some "none".
Proof. vm_compute. repeat split; done. Qed.

(** ** Resolution as a function on shapes

    The shape of a fragment is what can be observed of it: the tree of its
    records along the child lists, without node identifiers or links. The
    three passes are related to functions that rebuild a shape node by node,
    each record from itself and the state alone. *)

Lemma unlinked_withChildNodes (c : list nat) (n : node) :
  unlinked (withChildNodes c n) = unlinked n.
Proof. done. Qed.

Lemma unlinked_withParentNode (p : option nat) (n : node) :
  unlinked (withParentNode p n) = unlinked n.
Proof. done. Qed.








Lemma selectAll_elem (names : list string) (s : gmap nat node) (l : list nat) (x : nat) :
  x ∈ selectAll names s l <->
  x ∈ l /\ exists n, s !! x = Some n /\ matchesSelector names n = true.
Proof.
  unfold selectAll. rewrite list_elem_of_In, filter_In, <- list_elem_of_In.
  split; intros [Hx H]; (split; [done|]).
  - destruct (s !! x) as [n|]; [|done]. by exists n.
  - destruct H as (n & -> & Hm). done.
Qed.




Lemma textCallback_spec (st : state) (el : nat) (d : dom) (n0 : node) :
  wf d -> nodes d !! el = Some n0 -> is_Some (attributes n0 !! "data-s-text") ->
  exists d1,
    textCallback st el d = (d1, Ok tt) /\ wf d1 /\ nextId d <= nextId d1 /\
    (forall x n, nodes d !! x = Some n ->
       exists n', nodes d1 !! x = Some n' /\ unlinked n' = unlinked n /\
                  (x <> el -> childNodes n' = childNodes n)) /\
    (exists n', nodes d1 !! el = Some n' /\ textChildren st n0 (nodes d1) (childNodes n')).
Proof.
  intros Hwf Hel [sText Hmark].
  pose proof (respects_textCallback anyChange (fun _ _ => I) (fun _ _ => I) st el d Hwf)
    as [Hwf1 [Hle _]].
  assert (Hrel : forall x n, nodes d !! x = Some n ->
            exists n', alterAll (withParentNode None) (nodes d) (childNodes n0) !! x = Some n' /\
                       sameButParent n n').
  { intros x n Hx. by apply alterAll_related; [apply _|..]. }
  assert (Hlt : forall x n, nodes d !! x = Some n -> nextId d <> x).
  { intros x n Hx <-. assert (nextId d < nextId d) by (apply Hwf; by rewrite Hx). lia. }
  unfold textCallback, bind, getNode, dataset in *. rewrite Hel, Hmark in *.
  unfold setTextContent, bind, getNode in *. rewrite Hel in *.
  rewrite forEach_modifyNode in *. simpl in *.
  unfold textChildren, textValue, dataset. rewrite Hmark.
  assert (Hnone : forall (d1 : dom),
            d1 = mkDom (alter (withChildNodes [])
                          el (alterAll (withParentNode None) (nodes d) (childNodes n0)))
                       (nextId d) (warnings d) ->
            (forall x n, nodes d !! x = Some n ->
               exists n', nodes d1 !! x = Some n' /\ unlinked n' = unlinked n /\
                          (x <> el -> childNodes n' = childNodes n)) /\
            (exists n', nodes d1 !! el = Some n' /\ childNodes n' = [])).
  { intros d1 ->. simpl. split.
    - intros x n Hx. destruct (Hrel x n Hx) as (n' & Hn' & Hs);
      pose proof (f_equal fst Hs) as Hu; pose proof (f_equal snd Hs) as Hk;
      simpl in Hu, Hk; clear Hs.
      rewrite lookup_alter. case_decide; subst; rewrite Hn'; simpl.
      + eexists. split; [done|]. split; [by rewrite unlinked_withChildNodes|]. by intros.
      + eexists. split; [done|]. split; [done|]. by intros.
    - destruct (Hrel el n0 Hel) as (n' & Hn' & _).
      rewrite lookup_alter_eq, Hn'. simpl. eexists. split; done. }
  destruct (stateGet st (clearMagic sText)) as [|[|a data]] eqn:Hv; simpl in *.
  - eexists. split; [done|]. split; [done|]. split; [done|]. by apply Hnone.
  - eexists. split; [done|]. split; [done|]. split; [done|]. by apply Hnone.
  - eexists. split; [done|]. split; [done|]. split; [done|]. simpl. split.
    + intros x n Hx. destruct (Hrel x n Hx) as (n' & Hn' & Hs);
      pose proof (f_equal fst Hs) as Hu; pose proof (f_equal snd Hs) as Hk;
      simpl in Hu, Hk; clear Hs.
      rewrite lookup_alter. case_decide; subst.
      * rewrite lookup_insert_ne, Hn' by (by eapply Hlt). simpl.
        eexists. split; [done|]. split; [by rewrite unlinked_withChildNodes|]. by intros.
      * rewrite lookup_insert_ne, Hn' by (by eapply Hlt).
        eexists. split; [done|]. split; [done|]. by intros.
    + destruct (Hrel el n0 Hel) as (n' & Hn' & _).
      rewrite lookup_alter_eq, lookup_insert_ne, Hn' by (by eapply Hlt). simpl.
      eexists. split; [done|]. simpl. eexists _, _. split; [done|].
      rewrite lookup_alter_ne by (intros Heq; by eapply Hlt). rewrite lookup_insert_eq. done.
Qed.

Lemma unlinked_attributes (n m : node) : unlinked n = unlinked m -> attributes n = attributes m.
Proof. intros H. by apply (f_equal attributes) in H. Qed.

Lemma textChildren_unlinked (st : state) (n m : node) (s : gmap nat node) (kids : list nat) :
  unlinked n = unlinked m -> textChildren st n s kids -> textChildren st m s kids.
Proof.
  intros H%unlinked_attributes. unfold textChildren, textValue, dataset. by rewrite H.
Qed.

Lemma textPass_spec (st : state) (L : list nat) (d : dom) :
  wf d -> Forall (hasMarker "data-s-text" (nodes d)) L ->
  exists d',
    forEach (textCallback st) L d = (d', Ok tt) /\ wf d' /\ nextId d <= nextId d' /\
    forall x n, nodes d !! x = Some n ->
      exists n', nodes d' !! x = Some n' /\ unlinked n' = unlinked n /\
                 (x ∉ L -> childNodes n' = childNodes n) /\
                 (x ∈ L -> textChildren st n (nodes d') (childNodes n')).
Proof.
  revert d. induction L as [|el L IH]; intros d Hwf Hall.
  - exists d. split; [done|]. split; [done|]. split; [done|].
    intros x n Hx. exists n. split; [done|]. split; [done|]. split; [done|].
    by intros ?%elem_of_nil.
  - apply Forall_cons in Hall as [(n0 & Hel & Hmark) Hall].
    destruct (textCallback_spec st el d n0 Hwf Hel Hmark)
      as (d1 & Hstep & Hwf1 & Hle1 & Hold1 & (m1 & Hm1 & Htc1)).
    assert (Hall1 : Forall (hasMarker "data-s-text" (nodes d1)) L).
    { eapply Forall_impl; [done|]. intros x (n & Hx & Hm).
      destruct (Hold1 x n Hx) as (n' & Hn' & Hu & _). exists n'. split; [done|].
      by rewrite (unlinked_attributes _ _ Hu). }
    destruct (IH d1 Hwf1 Hall1) as (d' & Hloop & Hwf' & Hle' & Hold').
    exists d'. split; [simpl; unfold bind; by rewrite Hstep|].
    split; [done|]. split; [lia|].
    intros x n Hx. destruct (Hold1 x n Hx) as (n1 & Hn1 & Hu1 & Hk1).
    destruct (Hold' x n1 Hn1) as (n' & Hn' & Hu' & Hk' & Ht').
    exists n'. split; [done|]. split; [congruence|]. split.
    + intros Hnot. rewrite Hk', Hk1; [done|set_solver..].
    + intros Hin. destruct (decide (x ∈ L)) as [HL|HL].
      { eapply textChildren_unlinked; [|by apply Ht']. done. }
      assert (x = el) as -> by set_solver.
      assert (n = n0) as -> by congruence. assert (m1 = n1) as -> by congruence.
      rewrite (Hk' HL). unfold textChildren in *.
      destruct (textData (textValue st n0)) as [data|]; [|done].
      destruct Htc1 as (t & tn & Hkids & Ht & Hut & Hkt).
      destruct (Hold' t tn Ht) as (tn' & Htn' & Hutn' & Hktn' & _).
      exists t, tn'. split; [done|]. split; [done|]. split; [congruence|].
      rewrite Hktn'; [done|]. intros HtL.
      rewrite Forall_forall in Hall1. destruct (Hall1 t HtL) as (tn2 & Htn2 & [v Hv]).
      assert (tn2 = tn) as -> by congruence.
      apply (f_equal attributes) in Hut. unfold unlinked in Hut. simpl in Hut.
      rewrite Hut in Hv. done.
Qed.






Section AttrPass.
Context (attributeName : string -> option string) (st : state).

Lemma pairCallback_step (el : nat) (n0 : node) (d : dom) (p : string) :
  nodes d !! el = Some n0 ->
  match parsePair attributeName st p with
  | Some kv =>
      pairCallback attributeName st el p d
        = (mkDom (<[el := withAttributes (<[kv.1 := kv.2]> (attributes n0)) n0]> (nodes d))
                 (nextId d) (warnings d), Ok tt)
  | None => exists e, pairCallback attributeName st el p d = (d, Throw e)
  end.
Proof.
  intros Hel. unfold pairCallback, parsePair.
  destruct (JsString.split "=" p) as [|name [|expr l]]; simpl; try by eexists.
  unfold setAttribute, bind, getNode. rewrite Hel.
  destruct (attributeName name) as [stored|]; simpl; [|by eexists].
  unfold modifyNode. f_equal. f_equal.
  apply map_eq. intros x. rewrite lookup_insert, lookup_alter.
  case_decide; [|done]. subst. by rewrite Hel.
Qed.

Lemma forEach_pairCallback (el : nat) (n : node) (nx : nat) (ws : list string)
  (pairs : list string) (a : gmap string string) (s : gmap nat node) :
  s !! el = Some (withAttributes a n) ->
  match parsePairs attributeName st pairs with
  | Some m =>
      forEach (pairCallback attributeName st el) pairs (mkDom s nx ws)
        = (mkDom (<[el := withAttributes (m ∪ a) n]> s) nx ws, Ok tt)
  | None =>
      exists d' e, forEach (pairCallback attributeName st el) pairs (mkDom s nx ws)
                     = (d', Throw e)
  end.
Proof.
  revert a s. induction pairs as [|p pairs IH]; intros a s Hel.
  - simpl. rewrite (left_id_L ∅ (∪) a). by rewrite insert_id.
  - cbn [parsePairs forEach]. unfold bind.
    pose proof (pairCallback_step el _ (mkDom s nx ws) p Hel) as Hstep.
    destruct (parsePair attributeName st p) as [[k v]|]; simpl in *.
    + rewrite Hstep.
      change (withAttributes (<[k:=v]> a) (withAttributes a n))
        with (withAttributes (<[k:=v]> a) n).
      specialize (IH (<[k := v]> a) (<[el := withAttributes (<[k := v]> a) n]> s)).
      rewrite lookup_insert_eq in IH. specialize (IH eq_refl).
      destruct (parsePairs attributeName st pairs) as [m|]; simpl; [|done].
      rewrite IH. rewrite insert_insert_eq. do 3 f_equal.
      rewrite insert_union_singleton_l. by rewrite (assoc_L (∪)).
    + destruct Hstep as [e ->]. by eexists _, _.
Qed.






End AttrPass.


Section Resolved.
Context (attributeName : string -> option string) (st : state).












End Resolved.




Section SafeShapes.
Context (attributeName : string -> option string) (st : state).





End SafeShapes.


Section Outcome.
Context (attributeName : string -> option string) (st : state).



Lemma replaceStateDirectives_passes (fuel root : nat) (d : dom) :
  replaceStateDirectives attributeName fuel root st d =
    (showPass st fuel root;; textPass st fuel root;; attrPass attributeName st fuel root) d.
Proof.
  unfold replaceStateDirectives, showPass, textPass, attrPass, bind.
  destruct (querySelectorAll fuel root ["data-s-show"] d) as [d0 [shown|e]]; [|done].
  destruct (forEach (showCallback st) shown d0) as [d1 [[]|e]]; [|done].
  destruct (querySelectorAll fuel root ["data-s-text"] d1) as [d1' [texts|e]]; [|done].
  by destruct (forEach (textCallback st) texts d1') as [d2 [[]|e]].
Qed.


End Outcome.

Section Idempotence.
Context (attributeName : string -> option string) (st : state).




End Idempotence.

(** ** Idempotence of directive resolution *)






(** ** The keys a marker can name *)

Lemma slice_negationsCount (v : string) :
  JsString.startsWith "!" (JsString.slice (negationsCount v) v) = false.
Proof.
  induction v as [|c v IH]; [done|].
  by destruct c as [[] [] [] [] [] [] [] []].
Qed.

(** X1: the key a show marker reads never begins with a negation mark. *)
Theorem show_key_never_negated (st st' : state) (sShow : string) :
  (forall k, JsString.startsWith "!" k = false -> st !! k = st' !! k) ->
  showDisplay st sShow = showDisplay st' sShow.
Proof.
  intros Hagree. unfold showDisplay, stateGet.
  by rewrite (Hagree _ (slice_negationsCount (clearMagic sShow))).
Qed.

Lemma show_key_never_negated_witness :
  showDisplay Sample.showState "!!truthyVal"
  = showDisplay (<["!truthyVal" := ""]> Sample.showState) "!!truthyVal".
Proof.
  apply (show_key_never_negated Sample.showState (<["!truthyVal" := ""]> Sample.showState)).
  intros k Hk. rewrite lookup_insert_ne; [done|]. by intros <-.
Defined.

Module JsStringPieces.
Import JsString.

Lemma occurs_slice (c : ascii) (n : nat) (s : string) :
  occurs c s = false -> occurs c (slice n s) = false.
Proof.
  revert s. induction n as [|n IH]; intros [|b s]; simpl; try done.
  destruct (Ascii.eqb b c); [done|]. apply IH.
Qed.

Lemma occurs_removeFirst (c : ascii) (p s : string) :
  occurs c s = false -> occurs c (removeFirst p s) = false.
Proof.
  induction s as [|b s IH]; intros Hs; rewrite JsStringFacts.removeFirst_unfold.
  - destruct (startsWith p ""); [by apply occurs_slice|done].
  - destruct (startsWith p (String b s)); [by apply occurs_slice|].
    simpl in *. destruct (Ascii.eqb b c); [done|]. by apply IH.
Qed.

Lemma split_pieces (sep : ascii) (s : string) :
  Forall (fun p => occurs sep p = false) (split sep s).
Proof.
  induction s as [|b s IH]; simpl; [by repeat constructor|].
  destruct (Ascii.eqb b sep) eqn:Hb; [by constructor|].
  destruct (split sep s) as [|piece pieces]; [by repeat constructor; simpl; rewrite Hb|].
  apply Forall_cons in IH as [Hp Hps]. constructor; [|done]. simpl. by rewrite Hb.
Qed.

Lemma split_pieces_other (c sep : ascii) (s : string) :
  occurs c s = false -> Forall (fun p => occurs c p = false) (split sep s).
Proof.
  induction s as [|b s IH]; simpl; [by repeat constructor|].
  destruct (Ascii.eqb b c) eqn:Hb; [done|]. intros Hs. specialize (IH Hs).
  destruct (Ascii.eqb b sep); [by constructor|].
  destruct (split sep s) as [|piece pieces]; [by repeat constructor; simpl; rewrite Hb|].
  apply Forall_cons in IH as [Hp Hps]. constructor; [|done]. simpl. by rewrite Hb.
Qed.

End JsStringPieces.

Lemma forEach_agree {A} (f g : A -> M unit) (l : list A) (d : dom) :
  Forall (fun x => forall d, f x d = g x d) l -> forEach f l d = forEach g l d.
Proof.
  intros H. revert d. induction H as [|x l Hx _ IH]; intros d; simpl; [done|].
  unfold bind. rewrite Hx. by destruct (g x d) as [d' [[]|e]].
Qed.

(** X2: the attribute pass never reads a state key that contains ['='] or [',']. *)
Theorem attr_keys_without_separators
  (attributeName : string -> option string) (st st' : state) (el : nat) (d : dom) :
  (forall k, JsString.occurs "=" k = false -> JsString.occurs "," k = false ->
             st !! k = st' !! k) ->
  attrCallback attributeName st el d = attrCallback attributeName st' el d.
Proof.
  intros Hagree. unfold attrCallback, bind, getNode.
  destruct (nodes d !! el) as [n|]; [|done].
  destruct (attrList n) as [|pairs]; [done|].
  apply forEach_agree. eapply Forall_impl; [apply (JsStringPieces.split_pieces "," pairs)|].
  intros p Hp d'. unfold pairCallback.
  pose proof (JsStringPieces.split_pieces "=" p) as Heq.
  pose proof (JsStringPieces.split_pieces_other "," "=" p Hp) as Hcomma.
  destruct (JsString.split "=" p) as [|name [|expr rest]]; [done|done|].
  apply Forall_cons in Heq as [_ [Heq _]%Forall_cons].
  apply Forall_cons in Hcomma as [_ [Hcomma _]%Forall_cons].
  unfold stateGet. rewrite (Hagree (clearMagic expr)); [done|..];
    by apply JsStringPieces.occurs_removeFirst.
Qed.

Lemma attr_keys_without_separators_witness :
  attrCallback Sample.anyName SecondEquals.st 1 SecondEquals.doc
  = attrCallback Sample.anyName {[ "a" := "x" ]} 1 SecondEquals.doc.
Proof.
  apply (attr_keys_without_separators Sample.anyName SecondEquals.st {[ "a" := "x" ]}).
  intros k Hk _. unfold SecondEquals.st. simpl.
  rewrite insert_insert_ne by done.
  rewrite lookup_insert_ne; [|by intros <-].
  by rewrite insert_empty.
Defined.

(** ** Failures of the attribute callback *)

(** X3: an element whose pair list is absent or empty makes the attribute
    callback throw a [TypeError] before anything is written. *)
Theorem empty_pair_list
  (attributeName : string -> option string) (st : state) (el : nat) (d : dom) (n : node) :
  nodes d !! el = Some n ->
  toBoolean (attrList n) = false ->
  attrCallback attributeName st el d = (d, Throw TypeError).
Proof.
  intros Hel Hempty. unfold attrCallback, bind, getNode. rewrite Hel.
  destruct (attrList n) as [|[|c pairs]]; done.
Qed.

Lemma empty_pair_list_witness :
  attrCallback Sample.anyName ∅ 1 EmptyPairs.doc = (EmptyPairs.doc, Throw TypeError) /\
  attrCallback Sample.anyName ∅ 2 EmptyPairs.doc = (EmptyPairs.doc, Throw TypeError).
Proof.
  split.
  - apply (empty_pair_list Sample.anyName ∅ 1 EmptyPairs.doc
             (Sample.element "img" [("data-s-attrs", "")] [] (Some 0)));
      vm_compute; reflexivity.
  - apply (empty_pair_list Sample.anyName ∅ 2 EmptyPairs.doc
             (Sample.element "img" [("data-s-attr", "")] [] (Some 0)));
      vm_compute; reflexivity.
Defined.

Lemma forEach_app {A} (f : A -> M unit) (l1 l2 : list A) (d : dom) :
  forEach f (l1 ++ l2) d = (forEach f l1;; forEach f l2) d.
Proof.
  revert d. induction l1 as [|x l1 IH]; intros d; simpl; [done|].
  unfold bind in *. destruct (f x d) as [d' [[]|e]]; [|done]. apply IH.
Qed.

Lemma attrCallback_stops (attributeName : string -> option string) (st : state)
  (el : nat) (d : dom) (n : node) (pairs : string) (good : list string) (bad : string)
  (rest : list string) (m : gmap string string) (e : exn) :
  nodes d !! el = Some n ->
  attrList n = Str pairs ->
  JsString.split "," pairs = (good ++ bad :: rest)%list ->
  parsePairs attributeName st good = Some m ->
  (forall d' n', nodes d' !! el = Some n' ->
                 pairCallback attributeName st el bad d' = (d', Throw e)) ->
  attrCallback attributeName st el d =
    (mkDom (<[el := withAttributes (m ∪ attributes n) n]> (nodes d)) (nextId d) (warnings d),
     Throw e).
Proof.
  intros Hel Hlist Hsplit Hgood Hbad.
  unfold attrCallback, bind at 1, getNode. rewrite Hel, Hlist, Hsplit, forEach_app.
  pose proof (forEach_pairCallback attributeName st el n (nextId d) (warnings d)
                good (attributes n) (nodes d)) as H.
  assert (Hd : mkDom (nodes d) (nextId d) (warnings d) = d) by by destruct d.
  assert (Hn : withAttributes (attributes n) n = n) by by destruct n.
  rewrite Hd, Hn, Hgood in H. specialize (H Hel).
  unfold bind. rewrite H. simpl. unfold bind.
  by erewrite Hbad by (simpl; apply lookup_insert_eq).
Qed.

(** X4: a pair without ['='] stops the attribute callback with a
    [TypeError]; the pairs before it have been applied, those after it are
    not. *)
Theorem pair_without_equals
  (attributeName : string -> option string) (st : state) (el : nat) (d : dom) (n : node)
  (pairs : string) (good : list string) (bad : string) (rest : list string)
  (m : gmap string string) :
  nodes d !! el = Some n ->
  attrList n = Str pairs ->
  JsString.split "," pairs = (good ++ bad :: rest)%list ->
  parsePairs attributeName st good = Some m ->
  JsString.occurs "=" bad = false ->
  attrCallback attributeName st el d =
    (mkDom (<[el := withAttributes (m ∪ attributes n) n]> (nodes d)) (nextId d) (warnings d),
     Throw TypeError).
Proof.
  intros Hel Hlist Hsplit Hgood Hbad.
  apply (attrCallback_stops attributeName st el d n pairs good bad rest m); try done.
  intros d' n' _. unfold pairCallback. by rewrite JsStringFacts.split_absent.
Qed.

Lemma pair_without_equals_witness :
  attrCallback Sample.anyName BrokenPair.st 1 BrokenPair.doc =
    (mkDom (<[1 := withAttributes
                     ({[ "title" := "v" ]} ∪
                      attributes (Sample.element "img"
                                    [("data-s-attr", "title=k,oops,alt=k")] [] (Some 0)))
                     (Sample.element "img" [("data-s-attr", "title=k,oops,alt=k")] [] (Some 0))]>
              (nodes BrokenPair.doc))
           (nextId BrokenPair.doc) (warnings BrokenPair.doc),
     Throw TypeError).
Proof.
  apply (pair_without_equals Sample.anyName BrokenPair.st 1 BrokenPair.doc
           (Sample.element "img" [("data-s-attr", "title=k,oops,alt=k")] [] (Some 0))
           "title=k,oops,alt=k" ["title=k"] "oops" ["alt=k"] {[ "title" := "v" ]});
    vm_compute; reflexivity.
Defined.

(** X5: a pair whose attribute name the host rejects stops the attribute
    callback with an [InvalidCharacterError]; the pairs before it have been
    applied, those after it are not. *)
Theorem pair_with_rejected_name
  (attributeName : string -> option string) (st : state) (el : nat) (d : dom) (n : node)
  (pairs : string) (good : list string) (name expr : string) (rest : list string)
  (m : gmap string string) :
  nodes d !! el = Some n ->
  attrList n = Str pairs ->
  JsString.split "," pairs = (good ++ (name ++ String "=" expr)%string :: rest)%list ->
  parsePairs attributeName st good = Some m ->
  JsString.occurs "=" name = false ->
  attributeName name = None ->
  attrCallback attributeName st el d =
    (mkDom (<[el := withAttributes (m ∪ attributes n) n]> (nodes d)) (nextId d) (warnings d),
     Throw InvalidCharacterError).
Proof.
  intros Hel Hlist Hsplit Hgood Hname Hrej.
  apply (attrCallback_stops attributeName st el d n pairs good
           (name ++ String "=" expr) rest m); try done.
  intros d' n' Hel'. unfold pairCallback. rewrite JsStringFacts.split_app by done.
  assert (exists e1 more, JsString.split "=" expr = e1 :: more) as (e1 & more & ->).
  { destruct expr as [|c expr]; simpl; [by eexists _, _|].
    destruct (Ascii.eqb c "="); [by eexists _, _|].
    destruct (JsString.split "=" expr); by eexists _, _. }
  unfold setAttribute, bind, getNode. by rewrite Hel', Hrej.
Qed.

Lemma pair_with_rejected_name_witness :
  attrCallback BrokenPair.nonEmptyName BrokenPair.st 2 BrokenPair.doc =
    (mkDom (<[2 := withAttributes
                     ({[ "title" := "v" ]} ∪
                      attributes (Sample.element "img"
                                    [("data-s-attr", "title=k,=k,alt=k")] [] (Some 0)))
                     (Sample.element "img" [("data-s-attr", "title=k,=k,alt=k")] [] (Some 0))]>
              (nodes BrokenPair.doc))
           (nextId BrokenPair.doc) (warnings BrokenPair.doc),
     Throw InvalidCharacterError).
Proof.
  apply (pair_with_rejected_name BrokenPair.nonEmptyName BrokenPair.st 2 BrokenPair.doc
           (Sample.element "img" [("data-s-attr", "title=k,=k,alt=k")] [] (Some 0))
           "title=k,=k,alt=k" ["title=k"] "" "k" ["alt=k"] {[ "title" := "v" ]});
    vm_compute; reflexivity.
Defined.

(** ** Failures of [renderTmpl] and of the provider *)

(** X6: an element without [content] (not a template) makes both versions
    throw a [TypeError] at once: nothing is cloned, the provider is not
    called, nothing is logged. *)
Theorem render_without_content
  (attributeName : string -> option string) (fuel tmplEl : nat) (st : state)
  (subTmpl : option provider) (d : dom) (n : node) :
  nodes d !! tmplEl = Some n ->
  content n = None ->
  renderTmpl attributeName fuel tmplEl st subTmpl d = (d, Throw TypeError) /\
  renderTmpl2 attributeName fuel tmplEl st subTmpl d = (d, Throw TypeError).
Proof.
  intros Hel Hc.
  unfold renderTmpl, renderTmpl2, cloneContent, bind, getNode. by rewrite Hel, Hc.
Qed.

Lemma render_without_content_witness :
  renderTmpl Sample.anyName 3 2 Sample.showState (Some Providers.failing) Sample.showDoc
    = (Sample.showDoc, Throw TypeError) /\
  renderTmpl2 Sample.anyName 3 2 Sample.showState (Some Providers.failing) Sample.showDoc
    = (Sample.showDoc, Throw TypeError).
Proof.
  apply (render_without_content Sample.anyName 3 2 Sample.showState
           (Some Providers.failing) Sample.showDoc
           (Sample.element "div" [("data-s-show", "!!truthyVal")] [3] (Some 1)));
    vm_compute; reflexivity.
Defined.

(** X7: when the slot exists and the provider returns nothing to attach
    ([undefined], [null], another falsy value or the empty array),
    [renderTmpl] returns the fragment and leaves the store and the log as the
    provider left them. *)
Theorem nothing_to_attach
  (attributeName : string -> option string) (fuel tmplEl : nat) (st : state)
  (f : provider) (d d1 d2 : dom) (tmpl slot : nat) (sub : value) :
  resolvedClone attributeName fuel tmplEl st d = (d1, Ok tmpl) ->
  f tmpl st d1 = (d2, Ok sub) ->
  querySelector fuel tmpl ["data-s-slot"] d2 = (d2, Ok (Some slot)) ->
  nonEmptyResult sub = false ->
  renderTmpl attributeName fuel tmplEl st (Some f) d = (d2, Ok tmpl).
Proof.
  intros Hclone Hf Hq Hsub. rewrite renderTmpl_resolvedClone.
  unfold bind at 1. rewrite Hclone. unfold bind at 1. rewrite Hf.
  unfold bind at 1. rewrite Hq. simpl. unfold bind. simpl.
  destruct sub as [| |c|[|item items]|[]]; done.
Qed.

Lemma nothing_to_attach_witness :
  renderTmpl Sample.anyName 4 0 SlotList.st (Some Providers.nothing) SlotList.doc
    = (SlotList.d1, Ok 7).
Proof.
  apply (nothing_to_attach Sample.anyName 4 0 SlotList.st Providers.nothing
           SlotList.doc SlotList.d1 SlotList.d1 7 8 VUndefined); vm_compute; reflexivity.
Defined.

(** X8: an exception of the provider leaves [renderTmpl] as it is thrown:
    nothing is attached. The first version has not looked for the slot and
    logs nothing; the second has already logged the slot warning when the
    slot is missing. *)
Theorem provider_exception
  (attributeName : string -> option string) (fuel tmplEl : nat) (st : state)
  (f : provider) (d d1 d2 : dom) (tmpl : nat) (slot : option nat) (e : exn)
  (emitted : list string) :
  resolvedClone attributeName fuel tmplEl st d = (d1, Ok tmpl) ->
  (forall ws, f tmpl st (withWarnings ws d1) = (withWarnings (ws ++ emitted) d2, Throw e)) ->
  querySelector fuel tmpl ["data-s-slot"] d1 = (d1, Ok slot) ->
  renderTmpl attributeName fuel tmplEl st (Some f) d
    = (withWarnings (warnings d1 ++ emitted) d2, Throw e) /\
  renderTmpl2 attributeName fuel tmplEl st (Some f) d
    = (withWarnings (warnings d1 ++ slotWarnings slot ++ emitted) d2, Throw e).
Proof.
  intros Hclone Hf Hq. split.
  - rewrite renderTmpl_resolvedClone. unfold bind at 1. rewrite Hclone.
    unfold bind at 1. rewrite <- (withWarnings_self d1) at 1. by rewrite Hf.
  - rewrite renderTmpl2_resolvedClone. unfold bind at 1. rewrite Hclone.
    unfold bind at 1. rewrite Hq.
    unfold bind at 1. rewrite <- (withWarnings_self d1) at 1. rewrite warnIfMissing_log.
    unfold bind at 1. by rewrite Hf, <- app_assoc.
Qed.

Lemma provider_exception_witness :
  renderTmpl Sample.anyName 4 0 NoSlot.st (Some Providers.failing) NoSlot.doc
    = (withWarnings (warnings NoSlot.d1 ++ []) NoSlot.d1, Throw (UserError "boom")) /\
  renderTmpl2 Sample.anyName 4 0 NoSlot.st (Some Providers.failing) NoSlot.doc
    = (withWarnings (warnings NoSlot.d1 ++ slotWarnings None ++ []) NoSlot.d1,
       Throw (UserError "boom")).
Proof.
  apply (provider_exception Sample.anyName 4 0 NoSlot.st Providers.failing
           NoSlot.doc NoSlot.d1 NoSlot.d1 6 None (UserError "boom") []).
  - vm_compute. reflexivity.
  - intros ws. unfold Providers.failing, throw. by rewrite app_nil_r.
  - vm_compute. reflexivity.
Defined.

(** ** What the slot receives *)

Lemma appendChild_fragment (fuel : nat) (d : dom) (p c : nat) (pn cn : node)
  (up : list nat) :
  nodes d !! p = Some pn -> nodes d !! c = Some cn ->
  nodeType cn = DocumentFragmentNode ->
  ancestors fuel (nodes d) p = Some up -> c ∉ p :: up ->
  appendChild fuel (Some p) (VNode c) d =
    (mkDom (alter (fun n => withChildNodes (childNodes n ++ childNodes cn) n) p
              (alter (withChildNodes []) c
                 (alterAll (withParentNode (Some p)) (nodes d) (childNodes cn))))
           (nextId d) (warnings d), Ok tt).
Proof.
  intros Hp Hc Hty Hup Hnot.
  unfold appendChild, bind, getNode, liftOption. rewrite Hp, Hc, Hup.
  rewrite bool_decide_eq_false_2 by done. rewrite Hty, forEach_modifyNode. done.
Qed.

(** X9: a document fragment returned by the provider (what [renderTmpl]
    itself returns) hands its children over to the slot: they follow the
    slot's children in order, their parent is the slot, and the fragment is
    left empty. Nothing is allocated or logged. *)
Theorem slot_receives_fragment
  (attributeName : string -> option string) (fuel tmplEl : nat) (st : state)
  (f : provider) (d d1 d2 : dom) (tmpl slot c : nat) (sn cn : node) (up : list nat) :
  resolvedClone attributeName fuel tmplEl st d = (d1, Ok tmpl) ->
  f tmpl st d1 = (d2, Ok (VNode c)) ->
  querySelector fuel tmpl ["data-s-slot"] d2 = (d2, Ok (Some slot)) ->
  nodes d2 !! slot = Some sn ->
  nodes d2 !! c = Some cn ->
  nodeType cn = DocumentFragmentNode ->
  ancestors fuel (nodes d2) slot = Some up ->
  c ∉ slot :: up ->
  exists d3,
    renderTmpl attributeName fuel tmplEl st (Some f) d = (d3, Ok tmpl) /\
    childNodes <$> nodes d3 !! slot = Some (childNodes sn ++ childNodes cn)%list /\
    childNodes <$> nodes d3 !! c = Some [] /\
    (forall k, k ∈ childNodes cn -> is_Some (nodes d2 !! k) ->
               parentNode <$> nodes d3 !! k = Some (Some slot)) /\
    nextId d3 = nextId d2 /\ warnings d3 = warnings d2.
Proof.
  intros Hclone Hf Hq Hslot Hc Hty Hup Hnot.
  eexists. split.
  { rewrite renderTmpl_resolvedClone. unfold bind at 1. rewrite Hclone.
    unfold bind at 1. rewrite Hf. unfold bind at 1. rewrite Hq.
    cbn [warnIfMissing attach truthy]. unfold bind, ret.
    by rewrite (appendChild_fragment fuel d2 slot c sn cn up). }
  assert (Hne : c <> slot) by set_solver.
  simpl. split; [|split; [|split; [|done]]].
  - rewrite lookup_alter_eq, lookup_alter_ne by done.
    rewrite <- option_fmap_compose.
    pose proof (alterAll_fmap childNodes (withParentNode (Some slot)) (nodes d2)
                  (childNodes cn) slot ltac:(done)) as H.
    rewrite Hslot in H. simpl in H.
    destruct (alterAll _ _ _ !! slot) as [n|]; [|done]. simpl in *. congruence.
  - rewrite lookup_alter_ne, lookup_alter_eq by done.
    pose proof (alterAll_fmap nodeType (withParentNode (Some slot)) (nodes d2)
                  (childNodes cn) c ltac:(done)) as H.
    rewrite Hc in H. by destruct (alterAll _ _ _ !! c).
  - intros k Hk [kn Hkn].
    rewrite (alter_fmap parentNode) by done. rewrite (alter_fmap parentNode) by done.
    rewrite alterAll_lookup by done. rewrite bool_decide_eq_true_2 by done.
    by rewrite Hkn.
Qed.

Lemma slot_receives_fragment_witness :
  exists d3,
    renderTmpl Sample.anyName 4 0 NoSlot.st (Some NoSlot.subTmpl) SlotList.doc = (d3, Ok 7) /\
    childNodes <$> nodes d3 !! 8 = Some ([] ++ [14; 15])%list /\
    childNodes <$> nodes d3 !! 13 = Some [] /\
    (forall k, k ∈ [14; 15] ->
               is_Some (nodes (NoSlot.subTmpl 7 NoSlot.st SlotList.d1).1 !! k) ->
               parentNode <$> nodes d3 !! k = Some (Some 8)) /\
    nextId d3 = nextId (NoSlot.subTmpl 7 NoSlot.st SlotList.d1).1 /\
    warnings d3 = warnings (NoSlot.subTmpl 7 NoSlot.st SlotList.d1).1.
Proof.
  apply (slot_receives_fragment Sample.anyName 4 0 NoSlot.st NoSlot.subTmpl
           SlotList.doc SlotList.d1 (NoSlot.subTmpl 7 NoSlot.st SlotList.d1).1 7 8 13
           (Sample.element "div" [("data-s-slot", "")] [] (Some 7))
           (Sample.fragment [14; 15]) [7]).
  - vm_compute. reflexivity.
  - vm_compute. reflexivity.
  - vm_compute. reflexivity.
  - vm_compute. reflexivity.
  - vm_compute. reflexivity.
  - vm_compute. reflexivity.
  - vm_compute. reflexivity.
  - set_solver.
Defined.




(** X11: an array item that is not a node stops the loop with a [TypeError];
    the items before it have been attached to the slot, the items after it
    are not. *)
Theorem array_item_not_a_node
  (attributeName : string -> option string) (fuel tmplEl : nat) (st : state)
  (f : provider) (d d1 d2 : dom) (tmpl slot : nat) (sn : node)
  (ids : list nat) (bad : value) (rest : list value) :
  resolvedClone attributeName fuel tmplEl st d = (d1, Ok tmpl) ->
  f tmpl st d1 = (d2, Ok (VArray (map VNode ids ++ bad :: rest))) ->
  querySelector fuel tmpl ["data-s-slot"] d2 = (d2, Ok (Some slot)) ->
  nodes d2 !! slot = Some sn ->
  attachable fuel (nodes d2) slot ids ->
  (forall c, bad <> VNode c) ->
  exists d3,
    renderTmpl attributeName fuel tmplEl st (Some f) d = (d3, Throw TypeError) /\
    childNodes <$> nodes d3 !! slot = Some (childNodes sn ++ insertedAll (nodes d2) ids)%list.
Proof.
  intros Hclone Hf Hq Hslot Hatt Hbad.
  destruct (attach_array fuel slot ids (nodes d2) (nextId d2) (warnings d2) Hatt)
    as (s3 & Hloop & (pn & sn' & Hp & Hp' & Hkids)).
  assert (pn = sn) as -> by congruence.
  assert (Hd2 : mkDom (nodes d2) (nextId d2) (warnings d2) = d2) by by destruct d2.
  rewrite Hd2 in Hloop.
  exists (mkDom s3 (nextId d2) (warnings d2)). split.
  - rewrite renderTmpl_resolvedClone. unfold bind at 1. rewrite Hclone.
    unfold bind at 1. rewrite Hf. unfold bind at 1. rewrite Hq.
    cbn [warnIfMissing attach]. unfold bind at 1, ret at 1.
    unfold bind at 1. rewrite forEach_app. unfold bind at 1. rewrite Hloop.
    cbn [forEach]. unfold bind at 1.
    destruct bad as [| |c|items|b]; try done. by destruct (Hbad c).
  - simpl. rewrite Hp'. simpl. by rewrite Hkids.
Qed.

Lemma array_item_not_a_node_witness :
  exists d3,
    renderTmpl Sample.anyName 4 0 SlotList.st (Some BadItem.subTmpl) SlotList.doc
      = (d3, Throw TypeError) /\
    childNodes <$> nodes d3 !! 8
      = Some ([] ++ insertedAll (nodes BadItem.d2) [13])%list.
Proof.
  apply (array_item_not_a_node Sample.anyName 4 0 SlotList.st BadItem.subTmpl
           SlotList.doc SlotList.d1 BadItem.d2 7 8
           (Sample.element "div" [("data-s-slot", "")] [] (Some 7))
           [13] VUndefined []).
  - vm_compute. reflexivity.
  - vm_compute. reflexivity.
  - vm_compute. reflexivity.
  - vm_compute. reflexivity.
  - apply attachable_check. vm_compute. reflexivity.
  - intros c. discriminate.
Defined.

(** ** The text an element is left with *)

Lemma descendants_agree (fuel : nat) (s s' : gmap nat node) (id : nat) :
  (forall x, childNodes <$> s' !! x = childNodes <$> s !! x) ->
  descendants fuel s' id = descendants fuel s id.
Proof.
  intros Hsame. revert id. induction fuel as [|fuel IH]; intros id; [done|].
  simpl. pose proof (Hsame id) as Hid.
  destruct (s !! id) as [n|], (s' !! id) as [n'|]; simpl in *; try done.
  injection Hid as ->. f_equal. apply mapM_ext. intros c. by rewrite IH.
Qed.

Lemma selectAll_agree (names : list string) (s s' : gmap nat node) (l : list nat) :
  (forall x, (fun n => (nodeType n, attributes n)) <$> s' !! x
             = (fun n => (nodeType n, attributes n)) <$> s !! x) ->
  selectAll names s' l = selectAll names s l.
Proof.
  intros Hsame. unfold selectAll. induction l as [|x l IH]; [done|]. simpl.
  rewrite IH. pose proof (Hsame x) as Hx.
  destruct (s !! x) as [n|], (s' !! x) as [n'|]; simpl in *; try done.
  injection Hx as Hty Hat. unfold matchesSelector. by rewrite Hty, Hat.
Qed.



Lemma show_then_text (st : state) (fuel tmpl : nat) (d : dom) (l0 : list nat) :
  wf d -> descendants fuel (nodes d) tmpl = Some l0 ->
  exists d1 d2,
    showPass st fuel tmpl d = (d1, Ok tt) /\
    (forall x, (fun m => (nodeType m, attributes m)) <$> nodes d1 !! x
               = (fun m => (nodeType m, attributes m)) <$> nodes d !! x) /\
    textPass st fuel tmpl d1 = (d2, Ok tt) /\ wf d2 /\
    forall x n1, nodes d1 !! x = Some n1 ->
      exists n2, nodes d2 !! x = Some n2 /\ unlinked n2 = unlinked n1 /\
                 (x ∈ selectAll ["data-s-text"] (nodes d) l0 ->
                  textChildren st n1 (nodes d2) (childNodes n2)).
Proof.
  intros Hwf Hd0.
  set (shown := selectAll ["data-s-show"] (nodes d) l0).
  pose proof (respects_forEach anyChange (showCallback st) shown
                (respects_showCallback st) d Hwf) as [Hwf1 _].
  pose proof (forEach_showCallback st shown d (selectAll_hasMarker _ _ _)) as Hrun1.
  rewrite Hrun1 in Hwf1. simpl in Hwf1.
  set (d1 := mkDom _ _ _) in *.
  assert (Hshow : forall m, (nodeType (showNode st m), attributes (showNode st m),
                              childNodes (showNode st m))
                           = (nodeType m, attributes m, childNodes m)).
  { intros m. unfold showNode. by destruct (dataset _ m). }
  assert (Hsame1 : forall x, (fun m => (nodeType m, attributes m))
                               <$> nodes d1 !! x
                             = (fun m => (nodeType m, attributes m)) <$> nodes d !! x).
  { intros x. unfold d1. simpl. apply alterAll_fmap.
    intros m. specialize (Hshow m). congruence. }
  assert (Hkids1 : forall x, childNodes <$> nodes d1 !! x = childNodes <$> nodes d !! x).
  { intros x. unfold d1. simpl. apply alterAll_fmap.
    intros m. specialize (Hshow m). congruence. }
  set (L := selectAll ["data-s-text"] (nodes d) l0) in *.
  assert (HL : Forall (hasMarker "data-s-text" (nodes d1)) L).
  { pose proof (selectAll_hasMarker "data-s-text" (nodes d) l0) as H.
    eapply Forall_impl; [exact H|]. intros x (m & Hm & Hmk).
    pose proof (Hsame1 x) as Hx. rewrite Hm in Hx.
    destruct (nodes d1 !! x) as [m1|] eqn:E; [|done]. simpl in Hx. injection Hx as _ Hx.
    exists m1. split; [done|]. by rewrite Hx. }
  destruct (textPass_spec st L d1 Hwf1 HL) as (d2 & Hrun2 & Hwf2 & _ & Hold2).
  exists d1, d2. split; [|split; [done|split; [|split; [done|]]]].
  - unfold showPass, bind, querySelectorAll, liftOption. rewrite Hd0. simpl.
    fold shown. by rewrite Hrun1.
  - unfold textPass, bind, querySelectorAll, liftOption.
    rewrite (descendants_agree fuel (nodes d) (nodes d1)), Hd0 by done. simpl.
    rewrite (selectAll_agree _ (nodes d) (nodes d1)) by done. fold L. by rewrite Hrun2.
  - intros x n1 Hx. destruct (Hold2 x n1 Hx) as (n2 & Hn2 & Hu2 & _ & Hk2). by exists n2.
Qed.



(** X13: the show pass and the text pass never throw, whatever the markers
    and the state hold: directive resolution can only fail in its attribute
    pass. *)
Theorem show_and_text_passes_complete
  (attributeName : string -> option string) (st : state) (fuel tmpl : nat) (d : dom)
  (l0 : list nat) :
  wf d ->
  descendants fuel (nodes d) tmpl = Some l0 ->
  exists d2,
    (showPass st fuel tmpl;; textPass st fuel tmpl) d = (d2, Ok tt) /\
    replaceStateDirectives attributeName fuel tmpl st d
      = attrPass attributeName st fuel tmpl d2.
Proof.
  intros Hwf Hd0.
  destruct (show_then_text st fuel tmpl d l0 Hwf Hd0)
    as (d1 & d2 & Hrun1 & _ & Hrun2 & _).
  exists d2. split.
  - unfold bind. by rewrite Hrun1, Hrun2.
  - rewrite replaceStateDirectives_passes. unfold bind. by rewrite Hrun1, Hrun2.
Qed.

Lemma show_and_text_passes_complete_witness :
  exists d2,
    (showPass (∅ : state) 3 0;; textPass (∅ : state) 3 0) MissingKey.doc = (d2, Ok tt) /\
    replaceStateDirectives Sample.anyName 3 0 (∅ : state) MissingKey.doc
      = attrPass Sample.anyName (∅ : state) 3 0 d2.
Proof.
  apply (show_and_text_passes_complete Sample.anyName (∅ : state) 3 0 MissingKey.doc [1; 2]).
  - apply wf_check. vm_compute. reflexivity.
  - vm_compute. reflexivity.
Defined.

(** ** What directive resolution leaves alone *)

#[local] Instance showChange_preorder : PreOrder showChange.
Proof.
  split.
  - by intros n.
  - intros n1 n2 n3 [H1 K1] [H2 K2]. split; [congruence|].
    intros Hnone. rewrite K2, K1; [done..|].
    apply (f_equal attributes) in H1. simpl in H1. by rewrite H1.
Qed.

#[local] Instance textChange_preorder : PreOrder textChange.
Proof.
  split.
  - by intros n.
  - intros n1 n2 n3 [H1 K1] [H2 K2]. split; [congruence|].
    intros Hnone. rewrite K2, K1; [done..|].
    by rewrite (unlinked_attributes _ _ H1).
Qed.

#[local] Instance attrChange_preorder : PreOrder attrChange.
Proof.
  split.
  - by intros n.
  - intros n1 n2 n3 (H1 & D1 & K1) (H2 & D2 & K2). split; [congruence|]. split.
    + intros a Ha. by apply D2, D1.
    + intros Ha Hb. rewrite K2, K1; [done..| |]; by rewrite K1.
Qed.









(** ** The clone of the template content *)

Lemma treeOf_frame (n0 fuel : nat) (s s' : gmap nat node) (id : nat) (t : tree) :
  (forall i, is_Some (s !! i) -> i < n0) ->
  (forall i, i < n0 -> s' !! i = s !! i) ->
  treeOf fuel s id = Some t -> treeOf fuel s' id = Some t.
Proof.
  intros Hwf Hsame. revert id t. induction fuel as [|fuel IH]; intros id t Ht; [done|].
  simpl in *. destruct (s !! id) as [n|] eqn:Hn; [|done].
  rewrite (Hsame id) by (apply Hwf; by rewrite Hn). rewrite Hn. simpl in *.
  destruct (mapM (treeOf fuel s) (childNodes n)) as [ts|] eqn:Hm; [|done].
  assert (Hm' : mapM (treeOf fuel s') (childNodes n) = Some ts).
  { clear Ht. revert ts Hm. generalize (childNodes n) as cs.
    induction cs as [|c cs IHcs]; intros ts Hm; [done|]. simpl in *.
    destruct (treeOf fuel s c) as [tc|] eqn:Hc; [|done]. simpl in Hm.
    rewrite (IH c tc Hc). simpl.
    destruct (mapM (treeOf fuel s) cs) as [ts'|]; [|done].
    by rewrite (IHcs ts' eq_refl). }
  rewrite Hm'. simpl in *.
  destruct (content n) as [c|]; [|done].
  destruct (treeOf fuel s c) as [tc|] eqn:Hc; [|done].
  by rewrite (IH c tc Hc).
Qed.

Lemma mapM_treeOf_frame (n0 fuel : nat) (s s' : gmap nat node) (cs : list nat)
  (ts : list tree) :
  (forall i, is_Some (s !! i) -> i < n0) ->
  (forall i, i < n0 -> s' !! i = s !! i) ->
  mapM (treeOf fuel s) cs = Some ts -> mapM (treeOf fuel s') cs = Some ts.
Proof.
  intros Hwf Hsame. revert ts. induction cs as [|c cs IH]; intros ts Hm; [done|].
  simpl in *. destruct (treeOf fuel s c) as [tc|] eqn:Hc; [|done]. simpl in Hm.
  rewrite (treeOf_frame n0 fuel s s' c tc Hwf Hsame Hc). simpl.
  destruct (mapM (treeOf fuel s) cs) as [ts'|]; [|done].
  by rewrite (IH ts' eq_refl).
Qed.

Lemma clone_children (fuel : nat) (p : option nat) :
  (forall id parent t d, wf d -> treeOf fuel (nodes d) id = Some t ->
                         exists d', clonesTo fuel id parent t d d') ->
  forall cs ts d0, wf d0 -> mapM (treeOf fuel (nodes d0)) cs = Some ts ->
  exists d1 ks,
    mapEach (fun c => cloneNode fuel c p) cs d0 = (d1, Ok ks) /\
    wf d1 /\ nextId d0 <= nextId d1 /\ warnings d1 = warnings d0 /\
    (forall i, i < nextId d0 -> nodes d1 !! i = nodes d0 !! i) /\
    (forall s', (forall x, nextId d0 <= x < nextId d1 -> s' !! x = nodes d1 !! x) ->
                mapM (treeOf fuel s') ks = Some ts).
Proof.
  intros IHfuel. induction cs as [|c cs IH]; intros ts d0 Hwf Hm.
  - injection Hm as <-. exists d0, []. by repeat split.
  - simpl in Hm. destruct (treeOf fuel (nodes d0) c) as [tc|] eqn:Hc; [|done]. simpl in Hm.
    destruct (mapM (treeOf fuel (nodes d0)) cs) as [ts'|] eqn:Hcs; [|done].
    injection Hm as <-.
    destruct (IHfuel c p tc d0 Hwf Hc) as (d' & Hrun & Hwf' & Hlt & Hws & Hfr & _ & Hdet).
    destruct (IH ts' d' Hwf') as (d1 & ks & Hrun1 & Hwf1 & Hle1 & Hws1 & Hfr1 & Hdet1).
    { by apply (mapM_treeOf_frame (nextId d0) fuel (nodes d0)). }
    exists d1, (nextId d0 :: ks). split; [|split; [done|split; [lia|split; [congruence|split]]]].
    + simpl. unfold bind. by rewrite Hrun, Hrun1.
    + intros i Hi. rewrite Hfr1 by lia. by apply Hfr.
    + intros s' Hs'. simpl. rewrite (Hdet s').
      * simpl. by rewrite (Hdet1 s') by (intros x Hx; apply Hs'; lia).
      * intros x Hx. rewrite Hs' by lia. apply Hfr1. lia.
Qed.

Lemma clone_tree (fuel id : nat) (parent : option nat) (t : tree) (d : dom) :
  wf d -> treeOf fuel (nodes d) id = Some t -> exists d', clonesTo fuel id parent t d d'.
Proof.
  revert id parent t d. induction fuel as [|fuel IH]; intros id parent t d Hwf Ht; [done|].
  simpl in Ht. destruct (nodes d !! id) as [n|] eqn:Hn; [|done]. simpl in Ht.
  destruct (mapM (treeOf fuel (nodes d)) (childNodes n)) as [ts|] eqn:Hts; [|done].
  simpl in Ht.
  set (rec0 := withContent None (withParentNode parent (withChildNodes [] n))).
  set (copy := nextId d).
  set (d0 := mkDom (<[copy := rec0]> (nodes d)) (S copy) (warnings d)).
  assert (Hwf0 : wf d0) by apply (respects_allocNode anyChange rec0 d Hwf).
  assert (Hfr0 : forall i, i < copy -> nodes d0 !! i = nodes d !! i).
  { intros i Hi. unfold d0. simpl. rewrite lookup_insert_ne; [done|lia]. }
  destruct (clone_children fuel (Some copy) IH (childNodes n) ts d0 Hwf0)
    as (d1 & ks & Hrun1 & Hwf1 & Hle1 & Hws1 & Hfr1 & Hdet1).
  { by apply (mapM_treeOf_frame copy fuel (nodes d)). }
  assert (Hinner : exists d2 inner ti,
            match content n with
            | None => ret None
            | Some c => let* c' := cloneNode fuel c None in ret (Some c')
            end d1 = (d2, Ok inner) /\
            t = Tree (withContent None (unlinked n)) ts ti /\
            wf d2 /\ nextId d1 <= nextId d2 /\ warnings d2 = warnings d1 /\
            (forall i, i < nextId d1 -> nodes d2 !! i = nodes d1 !! i) /\
            (forall s', (forall x, nextId d1 <= x < nextId d2 -> s' !! x = nodes d2 !! x) ->
                        match inner with
                        | None => Some None
                        | Some c' => Some <$> treeOf fuel s' c'
                        end = Some ti)).
  { destruct (content n) as [c|].
    - destruct (treeOf fuel (nodes d) c) as [tc|] eqn:Hc; [|done]. simpl in Ht.
      injection Ht as <-.
      destruct (IH c None tc d1 Hwf1) as (d2 & Hrun2 & Hwf2 & Hlt2 & Hws2 & Hfr2 & _ & Hdet2).
      { apply (treeOf_frame copy fuel (nodes d)); [done| |done].
        intros i Hi. rewrite Hfr1 by (simpl; lia). by apply Hfr0. }
      exists d2, (Some (nextId d1)), (Some tc). unfold bind. rewrite Hrun2.
      split; [done|]. split; [done|]. split; [done|]. split; [lia|].
      split; [done|]. split; [done|]. intros s' Hs'. by rewrite (Hdet2 s' Hs').
    - simpl in Ht. injection Ht as <-. exists d1, None, None. by repeat split. }
  destruct Hinner as (d2 & inner & ti & Hrun2 & -> & Hwf2 & Hle2 & Hws2 & Hfr2 & Hdet2).
  set (F := fun m => withContent inner (withChildNodes ks m)).
  set (d3 := mkDom (alter F copy (nodes d2)) (nextId d2) (warnings d2)).
  assert (Hcopy2 : nodes d2 !! copy = Some rec0).
  { rewrite Hfr2 by (simpl in Hle1; lia). rewrite Hfr1 by (simpl; lia).
    unfold d0. simpl. apply lookup_insert_eq. }
  exists d3. split; [|split; [|split; [|split; [|split; [|split]]]]].
  - cbn [cloneNode]. unfold bind at 1, getNode. rewrite Hn.
    unfold bind at 1, allocNode. fold copy rec0 d0.
    unfold bind at 1. rewrite Hrun1. unfold bind at 1. rewrite Hrun2.
    unfold bind, modifyNode, ret. done.
  - apply (respects_modifyNode anyChange copy F ltac:(done) d2 Hwf2).
  - simpl in *. fold copy. lia.
  - simpl. rewrite Hws2, Hws1. done.
  - intros i Hi. simpl. rewrite lookup_alter_ne by (fold copy in Hi; lia).
    rewrite Hfr2 by (simpl in Hle1; fold copy in Hi; lia).
    rewrite Hfr1 by (simpl; fold copy in Hi; lia). by apply Hfr0.
  - simpl. fold copy. by rewrite lookup_alter_eq, Hcopy2.
  - intros s' Hs'. fold copy in Hs'. fold copy. simpl in Hs'.
    cbn [treeOf]. rewrite (Hs' copy) by (simpl in Hle1; lia).
    rewrite lookup_alter_eq, Hcopy2. simpl.
    rewrite (Hdet1 s').
    2:{ intros x Hx. simpl in Hx. rewrite Hs' by lia.
        rewrite lookup_alter_ne by lia. apply Hfr2. lia. }
    simpl. rewrite (Hdet2 s').
    2:{ intros x Hx. simpl in Hle1. rewrite Hs' by lia.
        rewrite lookup_alter_ne by lia. done. }
    done.
Qed.

(** X15: the fragment [renderTmpl] works on is a faithful copy of the
    template's content: [tmplEl.content.cloneNode(true)] returns a fresh,
    parentless node whose subtree, the contents of nested templates
    included, repeats the content's records, children and order; the
    nodes that existed before are as they were and nothing is logged. *)
Theorem content_clone_faithful
  (fuel tmplEl : nat) (d : dom) (tn : node) (c : nat) (t : tree) :
  wf d ->
  nodes d !! tmplEl = Some tn ->
  content tn = Some c ->
  treeOf fuel (nodes d) c = Some t ->
  exists d',
    cloneContent fuel tmplEl d = (d', Ok (nextId d)) /\
    treeOf fuel (nodes d') (nextId d) = Some t /\
    parentNode <$> nodes d' !! nextId d = Some None /\
    (forall i, i < nextId d -> nodes d' !! i = nodes d !! i) /\
    nextId d < nextId d' /\ warnings d' = warnings d.
Proof.
  intros Hwf Htn Hc Ht.
  destruct (clone_tree fuel c None t d Hwf Ht)
    as (d' & Hrun & Hwf' & Hlt & Hws & Hfr & Hpar & Hdet).
  exists d'. unfold cloneContent, bind, getNode. rewrite Htn, Hc.
  split; [done|]. split; [by apply Hdet|]. by repeat split.
Qed.

Lemma content_clone_faithful_witness :
  exists d',
    cloneContent 4 0 SlotList.doc = (d', Ok (nextId SlotList.doc)) /\
    treeOf 4 (nodes d') (nextId SlotList.doc)
      = Some (Tree (Sample.fragment [])
                [Tree (Sample.element "div" [("data-s-slot", "")] [] None) [] None;
                 Tree (mkNode ElementNode "template" "" {[ "data-s-tmpl" := "result-item" ]}
                         "" [] None None) []
                   (Some (Tree (Sample.fragment [])
                            [Tree (Sample.text "Result ref: " None) [] None;
                             Tree (Sample.element "span"
                                     [("data-s-text", "$ctx.reference")] [] None) [] None]
                            None))]
                None) /\
    parentNode <$> nodes d' !! nextId SlotList.doc = Some None /\
    (forall i, i < nextId SlotList.doc -> nodes d' !! i = nodes SlotList.doc !! i) /\
    nextId SlotList.doc < nextId d' /\ warnings d' = warnings SlotList.doc.
Proof.
  apply (content_clone_faithful 4 0 SlotList.doc (Sample.template "tmpl" 1 None) 1).
  - apply wf_check. vm_compute. reflexivity.
  - vm_compute. reflexivity.
  - vm_compute. reflexivity.
  - vm_compute. reflexivity.
Defined.

(** ** The fragment [renderTmpl] returns *)




Section WithoutContent.
Context (attributeName : string -> option string) (st : state).











End WithoutContent.

Lemma attrOk_check (attributeName : string -> option string) (st : state) (l : list node) :
  forallb (fun n => if matchesSelector ["data-s-attr"; "data-s-attrs"] n
                    then bool_decide (is_Some (attrNode attributeName st n))
                    else true) l = true ->
  Forall (attrOk attributeName st) l.
Proof.
  intros H. apply Forall_forall. intros n Hn Hm. rewrite forallb_forall in H.
  specialize (H n (proj1 (list_elem_of_In _ _) Hn)). rewrite Hm in H.
  by apply bool_decide_eq_true in H.
Qed.




(** ** Further edge cases *)

Lemma clearMagic_negated (n : nat) (k : string) :
  clearMagic (JsString.repeat "!" n ++ "$ctx." ++ k) = JsString.repeat "!" n ++ k.
Proof.
  unfold clearMagic. induction n as [|n IH].
  - exact (JsStringFacts.removeFirst_app "$ctx." k).
  - change (JsString.repeat "!" (S n) ++ "$ctx." ++ k)
      with (String "!" (JsString.repeat "!" n ++ "$ctx." ++ k)).
    rewrite JsStringFacts.removeFirst_unfold.
    change (JsString.startsWith "$ctx." (String "!" (JsString.repeat "!" n ++ "$ctx." ++ k)))
      with false.
    cbv iota. by rewrite IH.
Qed.

(** X17: in a show marker the negation marks may stand before the context
    prefix as well as after it: the prefix is removed before the marks are
    counted. *)
Theorem negations_before_prefix (st : state) (n : nat) (k : string) :
  showDisplay st (JsString.repeat "!" n ++ "$ctx." ++ k)
  = showDisplay st ("$ctx." ++ JsString.repeat "!" n ++ k).
Proof. unfold showDisplay. by rewrite clearMagic_negated, clearMagic_prefixed. Qed.

(** X18: a provider result that is truthy but neither a node nor an array (a
    string of markup, say) makes [renderTmpl] throw a [TypeError] at
    [appendChild], slot or no slot; nothing is attached. *)
Theorem provider_returns_non_node
  (attributeName : string -> option string) (fuel tmplEl : nat) (st : state)
  (f : provider) (d d1 d2 : dom) (tmpl : nat) (slot : option nat) :
  resolvedClone attributeName fuel tmplEl st d = (d1, Ok tmpl) ->
  f tmpl st d1 = (d2, Ok (VOther true)) ->
  querySelector fuel tmpl ["data-s-slot"] d2 = (d2, Ok slot) ->
  renderTmpl attributeName fuel tmplEl st (Some f) d
    = (withWarnings (warnings d2 ++ slotWarnings slot) d2, Throw TypeError).
Proof.
  intros Hclone Hf Hq. rewrite renderTmpl_resolvedClone.
  unfold bind at 1. rewrite Hclone. unfold bind at 1. rewrite Hf.
  unfold bind at 1. rewrite Hq.
  destruct slot as [p|]; simpl; unfold bind; simpl.
  - rewrite app_nil_r. by destruct d2.
  - done.
Qed.

Lemma provider_returns_non_node_witness :
  renderTmpl Sample.anyName 4 0 SlotList.st (Some HtmlString.subTmpl) SlotList.doc
    = (withWarnings (warnings SlotList.d1 ++ slotWarnings (Some 8)) SlotList.d1,
       Throw TypeError).
Proof.
  apply (provider_returns_non_node Sample.anyName 4 0 SlotList.st HtmlString.subTmpl
           SlotList.doc SlotList.d1 SlotList.d1 7 (Some 8)); vm_compute; reflexivity.
Defined.

(** ** The state argument left out *)

Lemma forEach_ext {A} (f g : A -> M unit) (l : list A) (d : dom) :
  (forall x d, f x d = g x d) -> forEach f l d = forEach g l d.
Proof. intros H. apply forEach_agree. apply Forall_forall. by intros x _. Qed.

Section GivenState.
Context (attributeName : string -> option string) (st : state).

Lemma showCallbackU_given (el : nat) (d : dom) :
  showCallbackU (Some st) el d = showCallback st el d.
Proof.
  unfold showCallbackU, showCallback, bind at 1 3, getNode.
  destruct (nodes d !! el) as [n|]; [|done]. by destruct (dataset _ n).
Qed.

Lemma textCallbackU_given (el : nat) (d : dom) :
  textCallbackU (Some st) el d = textCallback st el d.
Proof.
  unfold textCallbackU, textCallback, bind at 1 3, getNode.
  destruct (nodes d !! el) as [n|]; [|done]. by destruct (dataset _ n).
Qed.

Lemma attrCallbackU_given (el : nat) (d : dom) :
  attrCallbackU attributeName (Some st) el d = attrCallback attributeName st el d.
Proof.
  unfold attrCallbackU, attrCallback, bind at 1 2, getNode.
  destruct (nodes d !! el) as [n|]; [|done]. destruct (attrList n) as [|pairs]; [done|].
  apply forEach_ext. intros p d'. unfold pairCallbackU, pairCallback.
  by destruct (JsString.split "=" p) as [|a [|b l]].
Qed.

Lemma replaceStateDirectivesU_given (fuel tmpl : nat) (d : dom) :
  replaceStateDirectivesU attributeName fuel tmpl (Some st) d
  = replaceStateDirectives attributeName fuel tmpl st d.
Proof.
  unfold replaceStateDirectivesU, replaceStateDirectives, bind.
  destruct (querySelectorAll fuel tmpl ["data-s-show"] d) as [d0 [shown|e]]; [|done].
  rewrite (forEach_ext _ _ shown d0 showCallbackU_given).
  destruct (forEach (showCallback st) shown d0) as [d1 [[]|e]]; [|done].
  destruct (querySelectorAll fuel tmpl ["data-s-text"] d1) as [d1' [texts|e]]; [|done].
  rewrite (forEach_ext _ _ texts d1' textCallbackU_given).
  destruct (forEach (textCallback st) texts d1') as [d2 [[]|e]]; [|done].
  destruct (querySelectorAll fuel tmpl _ d2) as [d2' [attrs|e]]; [|done].
  by rewrite (forEach_ext _ _ attrs d2' attrCallbackU_given).
Qed.

Lemma renderTmplU_given (fuel tmplEl : nat) (subTmpl : option providerU) (d : dom) :
  renderTmplU attributeName fuel tmplEl (Some st) subTmpl d
  = renderTmpl attributeName fuel tmplEl st
      (match subTmpl with
       | Some f => Some (fun tmpl s => f tmpl (Some s))
       | None => None
       end) d.
Proof.
  unfold renderTmplU, renderTmpl, bind.
  destruct (cloneContent fuel tmplEl d) as [d0 [tmpl|e]]; [|done].
  rewrite replaceStateDirectivesU_given.
  destruct (replaceStateDirectives attributeName fuel tmpl st d0) as [d1 [[]|e]]; [|done].
  by destruct subTmpl.
Qed.

End GivenState.

Lemma split_nonempty (sep : ascii) (s : string) : JsString.split sep s <> [].
Proof.
  destruct s as [|c s]; simpl; [done|].
  destruct (Ascii.eqb c sep); [done|]. by destruct (JsString.split sep s).
Qed.

Lemma stateless_show (el : nat) (d : dom) :
  hasMarker "data-s-show" (nodes d) el -> showCallbackU None el d = (d, Throw TypeError).
Proof.
  intros (n & Hn & [v Hv]). unfold showCallbackU, bind, getNode, dataset. by rewrite Hn, Hv.
Qed.

Lemma stateless_text (el : nat) (d : dom) :
  hasMarker "data-s-text" (nodes d) el -> textCallbackU None el d = (d, Throw TypeError).
Proof.
  intros (n & Hn & [v Hv]). unfold textCallbackU, bind, getNode, dataset. by rewrite Hn, Hv.
Qed.

Lemma stateless_attr (attributeName : string -> option string) (el : nat) (d : dom) :
  is_Some (nodes d !! el) -> attrCallbackU attributeName None el d = (d, Throw TypeError).
Proof.
  intros [n Hn]. unfold attrCallbackU, bind at 1, getNode. rewrite Hn.
  destruct (attrList n) as [|pairs]; [done|].
  pose proof (split_nonempty "," pairs) as Hne.
  destruct (JsString.split "," pairs) as [|p ps]; [done|].
  cbn [forEach]. unfold bind, pairCallbackU.
  by destruct (JsString.split "=" p) as [|a [|b l]].
Qed.

Lemma selectAll_markers (s : gmap nat node) (l : list nat) :
  selectAll markerNames s l = [] <->
  selectAll ["data-s-show"] s l = [] /\ selectAll ["data-s-text"] s l = [] /\
  selectAll ["data-s-attr"; "data-s-attrs"] s l = [].
Proof.
  unfold selectAll. induction l as [|x l IH]; [done|]. simpl.
  destruct (s !! x) as [n|]; [|exact IH].
  unfold matchesSelector, markerNames. destruct (nodeType n); try exact IH. simpl.
  destruct (bool_decide (is_Some (attributes n !! "data-s-show")));
    destruct (bool_decide (is_Some (attributes n !! "data-s-text")));
    destruct (bool_decide (is_Some (attributes n !! "data-s-attr")));
    destruct (bool_decide (is_Some (attributes n !! "data-s-attrs"))); simpl;
    try exact IH; split; try done; intros (? & ? & ?); done.
Qed.

Lemma stateless_resolution (attributeName : string -> option string)
  (fuel tmpl : nat) (d : dom) (l0 : list nat) :
  descendants fuel (nodes d) tmpl = Some l0 ->
  replaceStateDirectivesU attributeName fuel tmpl None d =
    (d, if bool_decide (selectAll markerNames (nodes d) l0 = [])
        then Ok tt else Throw TypeError).
Proof.
  intros Hd0.
  assert (Hq : forall names,
            querySelectorAll fuel tmpl names d = (d, Ok (selectAll names (nodes d) l0))).
  { intros names. unfold querySelectorAll, liftOption. by rewrite Hd0. }
  unfold replaceStateDirectivesU. unfold bind at 1. rewrite Hq.
  pose proof (selectAll_hasMarker "data-s-show" (nodes d) l0) as Hshow.
  pose proof (selectAll_hasMarker "data-s-text" (nodes d) l0) as Htext.
  pose proof (selectAll_markers (nodes d) l0) as Hall.
  destruct (selectAll ["data-s-show"] (nodes d) l0) as [|el shown].
  2:{ apply Forall_cons in Hshow as [Hel _]. cbn [forEach]. unfold bind.
      rewrite (stateless_show el d Hel).
      rewrite bool_decide_eq_false_2; [done|]. intros H. by apply Hall in H as [? _]. }
  cbn [forEach]. unfold bind at 1, ret at 1. unfold bind at 1. rewrite Hq.
  destruct (selectAll ["data-s-text"] (nodes d) l0) as [|el texts].
  2:{ apply Forall_cons in Htext as [Hel _]. cbn [forEach]. unfold bind.
      rewrite (stateless_text el d Hel).
      rewrite bool_decide_eq_false_2; [done|]. intros H. by apply Hall in H as (_ & ? & _). }
  cbn [forEach]. unfold bind at 1, ret at 1. unfold bind at 1. rewrite Hq.
  destruct (selectAll ["data-s-attr"; "data-s-attrs"] (nodes d) l0) as [|el attrs] eqn:Hattrs.
  - simpl. rewrite bool_decide_eq_true_2; [done|]. by apply Hall.
  - assert (Hel : is_Some (nodes d !! el)).
    { assert (Hin : el ∈ selectAll ["data-s-attr"; "data-s-attrs"] (nodes d) l0)
        by (rewrite Hattrs; set_solver).
      apply selectAll_elem in Hin as (_ & n & Hn & _). by rewrite Hn. }
    cbn [forEach]. unfold bind. rewrite (stateless_attr attributeName el d Hel).
    rewrite bool_decide_eq_false_2; [done|]. intros H. by apply Hall in H as (_ & _ & ?).
Qed.

(** X19: called without a state, [renderTmpl] throws a [TypeError] as soon as
    the template's content holds an element with one of the four markers:
    the fragment is cloned, no directive is applied and the provider is not
    called. When the content holds no such element the call goes on to the
    provider with the untouched clone. *)
Theorem render_without_state
  (attributeName : string -> option string) (fuel tmplEl : nat)
  (subTmpl : option providerU) (d d1 : dom) (tmpl : nat) (l0 : list nat) :
  cloneContent fuel tmplEl d = (d1, Ok tmpl) ->
  descendants fuel (nodes d1) tmpl = Some l0 ->
  renderTmplU attributeName fuel tmplEl None subTmpl d =
    if bool_decide (selectAll markerNames (nodes d1) l0 = [])
    then match subTmpl with
         | None => ret tmpl
         | Some f =>
             let* sub := f tmpl None in
             let* slot := querySelector fuel tmpl ["data-s-slot"] in
             warnIfMissing slot;;
             attach fuel slot sub;;
             ret tmpl
         end d1
    else (d1, Throw TypeError).
Proof.
  intros Hclone Hd0. unfold renderTmplU. unfold bind at 1. rewrite Hclone.
  unfold bind at 1. rewrite (stateless_resolution attributeName fuel tmpl d1 l0 Hd0).
  by destruct (bool_decide _).
Qed.

Lemma render_without_state_witness :
  renderTmplU Sample.anyName 3 0 None None QuickstartTemplate.doc
    = (if bool_decide (selectAll markerNames
                         (nodes (cloneContent 3 0 QuickstartTemplate.doc).1) [5; 6] = [])
       then ret 4 (cloneContent 3 0 QuickstartTemplate.doc).1
       else ((cloneContent 3 0 QuickstartTemplate.doc).1, Throw TypeError)) /\
  renderTmplU Sample.anyName 3 0 None None Loading.doc
    = (if bool_decide (selectAll markerNames (nodes Loading.cloned) [4] = [])
       then ret 3 Loading.cloned
       else (Loading.cloned, Throw TypeError)).
Proof.
  split.
  - apply (render_without_state Sample.anyName 3 0 None QuickstartTemplate.doc
             (cloneContent 3 0 QuickstartTemplate.doc).1 4 [5; 6]); vm_compute; reflexivity.
  - apply (render_without_state Sample.anyName 3 0 None Loading.doc Loading.cloned 3 [4]);
      vm_compute; reflexivity.
Defined.

Example render_without_state_runs :
  (renderTmplU Sample.anyName 3 0 None None QuickstartTemplate.doc).2 = Throw TypeError /\
  (renderTmplU Sample.anyName 3 0 None None Loading.doc).2 = Ok 3.
Proof. split; vm_compute; reflexivity. Qed.

(** ** The slot each version attaches to *)

(** X20: each version attaches to the slot it looked up: the first to the
    slot as the provider left the fragment, the second to the slot as it was
    before the provider ran; each warns when its own lookup found none. So a
    provider that creates the slot element makes the first version succeed
    without a warning while the second warns and fails at [appendChild]. *)
Theorem versions_slot_lookup
  (attributeName : string -> option string) (fuel tmplEl : nat) (st : state)
  (f : provider) (d d1 d2 : dom) (tmpl : nat) (sub : value)
  (before after : option nat) (emitted : list string) :
  resolvedClone attributeName fuel tmplEl st d = (d1, Ok tmpl) ->
  (forall ws, f tmpl st (withWarnings ws d1) = (withWarnings (ws ++ emitted) d2, Ok sub)) ->
  querySelector fuel tmpl ["data-s-slot"] d1 = (d1, Ok before) ->
  querySelector fuel tmpl ["data-s-slot"] d2 = (d2, Ok after) ->
  renderTmpl attributeName fuel tmplEl st (Some f) d
    = (withWarnings (warnings d1 ++ emitted ++ slotWarnings after)
         (attach fuel after sub d2).1,
       match (attach fuel after sub d2).2 with
       | Ok _ => Ok tmpl
       | Throw e => Throw e
       end) /\
  renderTmpl2 attributeName fuel tmplEl st (Some f) d
    = (withWarnings (warnings d1 ++ slotWarnings before ++ emitted)
         (attach fuel before sub d2).1,
       match (attach fuel before sub d2).2 with
       | Ok _ => Ok tmpl
       | Throw e => Throw e
       end).
Proof.
  intros Hclone Hf Hq1 Hq2. split.
  - rewrite renderTmpl_resolvedClone. unfold bind at 1. rewrite Hclone.
    unfold bind at 1. rewrite <- (withWarnings_self d1) at 1. rewrite Hf.
    unfold bind at 1. rewrite logFree_querySelector, Hq2. simpl.
    unfold bind at 1. rewrite warnIfMissing_log.
    unfold bind. rewrite logFree_attach, <- app_assoc.
    by destruct (attach fuel after sub d2) as [d3 [[]|e]].
  - rewrite renderTmpl2_resolvedClone. unfold bind at 1. rewrite Hclone.
    unfold bind at 1. rewrite Hq1.
    unfold bind at 1. rewrite <- (withWarnings_self d1) at 1. rewrite warnIfMissing_log.
    unfold bind at 1. rewrite Hf.
    unfold bind. rewrite logFree_attach, <- app_assoc.
    by destruct (attach fuel before sub d2) as [d3 [[]|e]].
Qed.

Lemma versions_slot_lookup_witness :
  renderTmpl Sample.anyName 3 0 ∅ (Some SlotMaker.subTmpl) SlotMaker.doc
    = (withWarnings (warnings SlotMaker.d1 ++ [] ++ slotWarnings (Some 4))
         (attach 3 (Some 4) (VNode 5) SlotMaker.d2).1,
       match (attach 3 (Some 4) (VNode 5) SlotMaker.d2).2 with
       | Ok _ => Ok 3
       | Throw e => Throw e
       end) /\
  renderTmpl2 Sample.anyName 3 0 ∅ (Some SlotMaker.subTmpl) SlotMaker.doc
    = (withWarnings (warnings SlotMaker.d1 ++ slotWarnings None ++ [])
         (attach 3 None (VNode 5) SlotMaker.d2).1,
       match (attach 3 None (VNode 5) SlotMaker.d2).2 with
       | Ok _ => Ok 3
       | Throw e => Throw e
       end).
Proof.
  apply (versions_slot_lookup Sample.anyName 3 0 ∅ SlotMaker.subTmpl SlotMaker.doc
           SlotMaker.d1 SlotMaker.d2 3 (VNode 5) None (Some 4) []).
  - vm_compute. reflexivity.
  - intros ws. rewrite app_nil_r. vm_compute. reflexivity.
  - vm_compute. reflexivity.
  - vm_compute. reflexivity.
Defined.

Example versions_slot_lookup_runs :
  (renderTmpl Sample.anyName 3 0 ∅ (Some SlotMaker.subTmpl) SlotMaker.doc).2 = Ok 3 /\
  warnings (renderTmpl Sample.anyName 3 0 ∅ (Some SlotMaker.subTmpl) SlotMaker.doc).1 = [] /\
  (renderTmpl2 Sample.anyName 3 0 ∅ (Some SlotMaker.subTmpl) SlotMaker.doc).2
    = Throw TypeError /\
  warnings (renderTmpl2 Sample.anyName 3 0 ∅ (Some SlotMaker.subTmpl) SlotMaker.doc).1
    = [slotWarning].
Proof. repeat split; vm_compute; reflexivity. Qed.

(** ** The repository's tests on the model *)

(** The assertions of the test "renderTmpl - data-s-show". *)
Example test_data_s_show :
  let r := renderTmpl Sample.anyName 4 0 Sample.showState None Tests.showDoc in
  r.2 = Ok 8 /\
  Tests.displayOf r 10 = Some "" /\ Tests.displayOf r 11 = Some "none" /\
  Tests.displayOf r 12 = Some "" /\ Tests.displayOf r 13 = Some "none" /\
  Tests.displayOf r 14 = Some "".
Proof. vm_compute. repeat split; reflexivity. Qed.

(** The assertions of the test "setting multiple attributes". *)
Example test_data_s_attr :
  let r := renderTmpl Sample.anyName 3 0 Tests.attrState None Tests.attrDoc in
  r.2 = Ok 4 /\
  Tests.attributeOf r 5 "src" = Some "my-url" /\ Tests.attributeOf r 5 "alt" = Some "hello" /\
  Tests.attributeOf r 6 "src" = Some "my-url" /\ Tests.attributeOf r 6 "alt" = Some "hello".
Proof. vm_compute. repeat split; reflexivity. Qed.

(** The assertions of the test "no data-s-slot": the call throws and the
    first warning is the slot warning. *)
Example test_no_slot :
  let r := renderTmpl Sample.anyName 4 0 NoSlot.st (Some NoSlot.subTmpl) NoSlot.doc in
  r.2 = Throw TypeError /\ head (warnings r.1) = Some slotWarning.
Proof. vm_compute. split; reflexivity. Qed.
